(** * ArtGallery (art/script.js): a shallow embedding and its properties

    The source file holds two revisions of the class [ArtGallery]:
    - the first (lines 1-160) reads a static descriptor, [metadata.json];
    - the second (lines 161-565) lists the [images] folder through the
      hosting API, reads embedded tags, and falls back to probing a fixed
      list of file names.
    Both share [sortImages] and the head of [renderGallery].

    Conventions of the model.
    - Strings are [string]s of 8-bit characters.  Every regular expression of
      the source singles out ASCII characters only, so a non-ASCII code unit
      behaves like any other non-word character; case mapping is ASCII.
    - A [Date] is its time value, [option Z]: [None] is NaN (Invalid Date).
    - What the engine or the network decides (locale collation, [Date.parse],
      whether a request succeeds, what the tag reader returns) is a parameter. *)

From Stdlib Require Import ZArith List String Ascii Bool Lia Permutation.
Import ListNotations.

Local Open Scope string_scope.
Local Open Scope Z_scope.

(** ** JavaScript strings *)

Module JsString.

Definition code (c : ascii) : nat := nat_of_ascii c.

(** [\d] *)
Definition isDigit (c : ascii) : bool :=
  (Nat.leb 48 (code c) && Nat.leb (code c) 57)%bool.

Definition isUpper (c : ascii) : bool :=
  (Nat.leb 65 (code c) && Nat.leb (code c) 90)%bool.

Definition isLower (c : ascii) : bool :=
  (Nat.leb 97 (code c) && Nat.leb (code c) 122)%bool.

(** [\w], that is [[A-Za-z0-9_]] *)
Definition isWordChar (c : ascii) : bool :=
  (isDigit c || isUpper c || isLower c || (c =? "_")%char)%bool.

Definition toUpperChar (c : ascii) : ascii :=
  if isLower c then ascii_of_nat (code c - 32) else c.

Definition toLowerChar (c : ascii) : ascii :=
  if isUpper c then ascii_of_nat (code c + 32) else c.

Fixpoint mapChars (f : ascii -> ascii) (s : string) : string :=
  match s with
  | EmptyString => EmptyString
  | String c r => String (f c) (mapChars f r)
  end.

Definition toLowerCase : string -> string := mapChars toLowerChar.

Fixpoint allChars (p : ascii -> bool) (s : string) : bool :=
  match s with
  | EmptyString => true
  | String c r => (p c && allChars p r)%bool
  end.

Fixpoint hasChar (c : ascii) (s : string) : bool :=
  match s with
  | EmptyString => false
  | String d r => ((d =? c)%char || hasChar c r)%bool
  end.

(** [s.lastIndexOf(c)]: the scan keeps the last index seen, from [-1]. *)
Fixpoint lastIndexOfFrom (c : ascii) (s : string) (i acc : Z) : Z :=
  match s with
  | EmptyString => acc
  | String d r => lastIndexOfFrom c r (i + 1) (if (d =? c)%char then i else acc)
  end.

Definition lastIndexOf (c : ascii) (s : string) : Z :=
  lastIndexOfFrom c s 0 (-1).

Fixpoint dropChars (n : nat) (s : string) : string :=
  match n, s with
  | O, _ => s
  | S _, EmptyString => EmptyString
  | S n', String _ r => dropChars n' r
  end.

(** [s.substring(start)]: a negative start counts as 0, one past the end
    as the length. *)
Definition substringFrom (start : Z) (s : string) : string :=
  dropChars (Z.to_nat (Z.max 0 (Z.min start (Z.of_nat (String.length s))))) s.

(** [list.includes(s)] on a list of strings. *)
Definition includes (s : string) (l : list string) : bool :=
  existsb (String.eqb s) l.

(** Truthiness of a property that is a string or [undefined]/[null]:
    only a non-empty string is truthy. *)
Definition truthy (v : option string) : bool :=
  match v with
  | Some s => negb (s =? "")%string
  | None => false
  end.

(** [a || b] *)
Definition or (a b : option string) : option string :=
  if truthy a then a else b.

(** [s.replace(/\.[^/.]+$/, "")]: the first "." whose rest, to the end of
    the string, is non-empty and holds neither "/" nor ".". *)
Definition isExtTail (s : string) : bool :=
  (negb (s =? "")%string
   && allChars (fun c => negb ((c =? "/")%char || (c =? ".")%char)) s)%bool.

Fixpoint stripExtension (s : string) : string :=
  match s with
  | EmptyString => EmptyString
  | String c r =>
      if ((c =? ".")%char && isExtTail r)%bool then EmptyString
      else String c (stripExtension r)
  end.

End JsString.
Import JsString.

(** ** generateTitle (lines 362-368) *)

(** [.replace(/[-_]/g, ' ')] *)
Definition dashToSpace (c : ascii) : ascii :=
  if ((c =? "-")%char || (c =? "_")%char)%bool then " "%char else c.

(** [.replace(/\b\w/g, l => l.toUpperCase())]: a word character that follows
    the start of the string or a non-word character.  [prevWord] tells whether
    the character before the current one is a word character. *)
Fixpoint capitalizeFrom (prevWord : bool) (s : string) : string :=
  match s with
  | EmptyString => EmptyString
  | String c r =>
      String (if (isWordChar c && negb prevWord)%bool then toUpperChar c else c)
             (capitalizeFrom (isWordChar c) r)
  end.

(** [.replace(/\d+/g, match => `#${match}`)]: "#" goes before the first digit
    of every maximal run.  [prevDigit] tells whether the character before the
    current one is a digit. *)
Fixpoint hashFrom (prevDigit : bool) (s : string) : string :=
  match s with
  | EmptyString => EmptyString
  | String c r =>
      if (isDigit c && negb prevDigit)%bool
      then String "#" (String c (hashFrom true r))
      else String c (hashFrom (isDigit c) r)
  end.

Definition generateTitle (filename : string) : string :=
  hashFrom false (capitalizeFrom false (mapChars dashToSpace filename)).

(** Readings of the three steps on the produced title. *)



(** ** The extension filter of loadImagesFromGitHub (lines 206-210) *)

Record File := mkFile {
  name : string;          (* file.name *)
  sha : option string     (* file.sha *)
}.

Definition imageExtensions : list string :=
  [".jpg"; ".jpeg"; ".png"; ".gif"; ".webp"].

(** [file.name.toLowerCase().substring(file.name.lastIndexOf('.'))] *)
Definition fileExt (fname : string) : string :=
  substringFrom (lastIndexOf "." fname) (toLowerCase fname).

Definition isImageFile (file : File) : bool :=
  includes (fileExt (name file)) imageExtensions.

(** ** The date conversion of extractImageMetadata (lines 302-307) *)

(** [.replace(/:/g, '-')] *)
Definition colonToDash (c : ascii) : ascii :=
  if (c =? ":")%char then "-"%char else c.

(** [\d{2}:\d{2}:\d{2}] at the head of [s] *)
Definition isTimeAt (s : string) : bool :=
  match s with
  | String d1 (String d2 (String c1 (String d3 (String d4
      (String c2 (String d5 (String d6 _))))))) =>
      (isDigit d1 && isDigit d2 && (c1 =? ":")%char
       && isDigit d3 && isDigit d4 && (c2 =? ":")%char
       && isDigit d5 && isDigit d6)%bool
  | _ => false
  end.

(** [.replace(/-(\d{2}:\d{2}:\d{2})/, ' $1')]: no [g] flag, so only the first
    "-" that a time follows becomes a space. *)
Fixpoint dashBeforeTimeToSpace (s : string) : string :=
  match s with
  | EmptyString => EmptyString
  | String c r =>
      if ((c =? "-")%char && isTimeAt r)%bool then String " " r
      else String c (dashBeforeTimeToSpace r)
  end.

Definition exifDateToString (dateTaken : string) : string :=
  dashBeforeTimeToSpace (mapChars colonToDash dateTaken).

(** ** Values of the image records *)

(** A JavaScript number as far as the comparators need it: NaN or an integer.
    Time values are integers of magnitude at most 8.64e15; the difference of
    two of them may be rounded by the engine, but never across zero, and the
    sort reads only its sign. *)
Inductive jsnum : Type :=
| NaN
| Num (z : Z).

(** The [dateObj] property: [null], or a [Date] with its time value. *)
Inductive DateVal : Type :=
| DNull
| DDate (tv : option Z).

(** ToNumber on a [dateObj]: [null] is 0, a [Date] is its time value. *)
Definition toNumber (d : DateVal) : jsnum :=
  match d with
  | DNull => Num 0
  | DDate (Some t) => Num t
  | DDate None => NaN
  end.

Definition numSub (a b : jsnum) : jsnum :=
  match a, b with
  | Num x, Num y => Num (x - y)
  | _, _ => NaN
  end.

(** [a >= b] on numbers: false as soon as one side is NaN. *)
Definition numGeb (a b : jsnum) : bool :=
  match a, b with
  | Num x, Num y => (y <=? x)
  | _, _ => false
  end.

Definition isValidDate (d : DateVal) : bool :=
  match d with
  | DDate (Some _) => true
  | _ => false
  end.

Record ImageRecord := mkImage {
  filename : string;
  title : option string;             (* None: undefined *)
  src : string;
  dateObj : DateVal;
  description : option string;
  camera : option string;
  software : option string;
  dimensions : option (N * N)        (* naturalWidth, naturalHeight *)
}.

(** ** Completions *)

Inductive JsError : Type :=
| TypeError
| FetchError.

(** How a call ends: normally, by a throw (a rejected promise), or, for an
    awaited promise, never. *)
Inductive Outcome (A : Type) : Type :=
| Done (a : A)
| Thrown (e : JsError)
| Pending.
Arguments Done {A} a.
Arguments Thrown {A} e.
Arguments Pending {A}.

(** ** Array.prototype.sort

    ECMAScript requires the sort to be stable and, when the comparator is a
    consistent comparison on the elements, fixes the result: it is the list
    computed here.  For any other comparator the standard leaves the order to
    the engine; the model then follows a stable insertion sort, inserting from
    the right.  A throw of the comparator ends the sort before anything is
    written back. *)
Section ArraySort.
Context {A : Type}.
Variable comparefn : A -> A -> Outcome jsnum.

(** SortCompare: a NaN result counts as +0. *)
Definition sortCompare (x y : A) : Outcome Z :=
  match comparefn x y with
  | Done NaN => Done 0
  | Done (Num v) => Done v
  | Thrown e => Thrown e
  | Pending => Pending
  end.

Fixpoint insert (x : A) (l : list A) : Outcome (list A) :=
  match l with
  | [] => Done [x]
  | y :: r =>
      match sortCompare x y with
      | Done v =>
          if v <=? 0 then Done (x :: y :: r)
          else match insert x r with
               | Done r' => Done (y :: r')
               | Thrown e => Thrown e
               | Pending => Pending
               end
      | Thrown e => Thrown e
      | Pending => Pending
      end
  end.

Fixpoint arraySort (l : list A) : Outcome (list A) :=
  match l with
  | [] => Done []
  | x :: r =>
      match arraySort r with
      | Done r' => insert x r'
      | Thrown e => Thrown e
      | Pending => Pending
      end
  end.

(** [x] may stand before [y]. *)
Definition leq (x y : A) : bool :=
  match sortCompare x y with
  | Done v => v <=? 0
  | _ => false
  end.


End ArraySort.

(** Every two neighbours of the list are related. *)
Fixpoint chain {A : Type} (le : A -> A -> bool) (l : list A) : bool :=
  match l with
  | x :: (y :: _) as r => (le x y && chain le r)%bool
  | _ => true
  end.

(** The ECMAScript notion of a consistent comparison function. *)
Definition consistent {A : Type} (cmp : A -> A -> Z) : Prop :=
  (forall a, cmp a a = 0) /\
  (forall a b, cmp a b = 0 -> cmp b a = 0) /\
  (forall a b c, cmp a b = 0 -> cmp b c = 0 -> cmp a c = 0) /\
  (forall a b c, cmp a b < 0 -> cmp b c < 0 -> cmp a c < 0) /\
  (forall a b c, cmp a b > 0 -> cmp b c > 0 -> cmp a c > 0).

(** Comparison of strings by code units: one collation an engine may use. *)
Definition codeUnitCompare (a b : string) : Z :=
  match String.compare a b with
  | Lt => -1
  | Eq => 0
  | Gt => 1
  end.

(** ** The page and the gallery object *)

(** A child of the [gallery] element. *)
Inductive Node : Type :=
| Card (img : ImageRecord)      (* div.artwork built from one record *)
| Instructions.                 (* the panel of showInstructions *)

Record Dom := mkDom {
  gallery : list Node;          (* children of #gallery *)
  loadingText : string;         (* #loading textContent *)
  loadingHidden : bool;         (* #loading style.display = 'none' *)
  galleryLoaded : bool          (* #gallery has class 'loaded' *)
}.

Inductive Strategy : Type :=
| StaticDescriptor
| DirectoryListing
| FilenameProbing.

Record App := mkApp {
  images : list ImageRecord;    (* this.images *)
  currentSort : string;         (* this.currentSort *)
  dom : Dom;
  invoked : list Strategy;      (* source strategies entered so far, in order *)
  listening : bool              (* setupEventListeners has run *)
}.

Definition setImages (l : list ImageRecord) (st : App) : App :=
  mkApp l (currentSort st) (dom st) (invoked st) (listening st).

Definition setCurrentSort (k : string) (st : App) : App :=
  mkApp (images st) k (dom st) (invoked st) (listening st).

Definition setDom (d : Dom) (st : App) : App :=
  mkApp (images st) (currentSort st) d (invoked st) (listening st).

Definition enter (s : Strategy) (st : App) : App :=
  mkApp (images st) (currentSort st) (dom st) (invoked st ++ [s]) (listening st).

Definition setGallery (g : list Node) (d : Dom) : Dom :=
  mkDom g (loadingText d) (loadingHidden d) (galleryLoaded d).

(** The constructor: [images = []], [currentSort = 'date'], on a host page. *)
Definition newGallery (page : Dom) : App :=
  mkApp [] "date" page [] false.

(** Methods run on the gallery object and end in an [Outcome]. *)
Definition M (A : Type) : Type := App -> App * Outcome A.

Definition ret {A : Type} (a : A) : M A := fun st => (st, Done a).

Definition bind {A B : Type} (m : M A) (f : A -> M B) : M B :=
  fun st =>
    match m st with
    | (st', Done a) => f a st'
    | (st', Thrown e) => (st', Thrown e)
    | (st', Pending) => (st', Pending)
    end.

Definition throw {A : Type} (e : JsError) : M A := fun st => (st, Thrown e).

(** [try { m } catch (error) { h }]; a promise that never settles is not
    caught. *)
Definition tryCatch {A : Type} (m : M A) (h : JsError -> M A) : M A :=
  fun st =>
    match m st with
    | (st', Thrown e) => h e st'
    | r => r
    end.

Definition modify (f : App -> App) : M unit := fun st => (f st, Done tt).

(** An awaited promise whose outcome the environment decides. *)
Definition await {A : Type} (o : Outcome A) : M A := fun st => (st, o).

Notation "x <- m ;; k" := (bind m (fun x => k))
  (at level 61, m at next level, right associativity).
Notation "m ;;; k" := (bind m (fun _ => k))
  (at level 61, right associativity).

(** ** sortImages (lines 46-54 and 435-443) and the rendering *)

Definition noArtworkText : string :=
  "No artwork found. Please add images and metadata.json".

(** [date.toLocaleDateString(...)]: a TypeError on [null]; the formatted text
    itself is not modelled. *)
Definition formatDate (d : DateVal) : Outcome unit :=
  match d with
  | DNull => Thrown TypeError
  | DDate _ => Done tt
  end.

(** The [forEach] of renderGallery: one card per record, appended in order;
    a throw while a card is built leaves the cards appended so far. *)
Fixpoint appendCards (imgs : list ImageRecord) (g : list Node)
  : list Node * Outcome unit :=
  match imgs with
  | [] => (g, Done tt)
  | img :: rest =>
      match formatDate (dateObj img) with
      | Done _ => appendCards rest (g ++ [Card img])
      | Thrown e => (g, Thrown e)
      | Pending => (g, Pending)
      end
  end.

Definition renderGallery : M unit :=
  fun st =>
    let st1 := setDom (setGallery [] (dom st)) st in
    match images st1 with
    | [] =>
        (setDom (mkDom (gallery (dom st1)) noArtworkText
                       (loadingHidden (dom st1)) (galleryLoaded (dom st1))) st1,
         Done tt)
    | _ =>
        match appendCards (images st1) (gallery (dom st1)) with
        | (g, Done _) =>
            (setDom (mkDom g (loadingText (dom st1)) true true) st1, Done tt)
        | (g, o) => (setDom (setGallery g (dom st1)) st1, o)
        end
    end.

Definition setupEventListeners : M unit :=
  modify (fun st =>
    mkApp (images st) (currentSort st) (dom st) (invoked st) true).

(** [(a, b) => b.dateObj - a.dateObj] *)
Definition dateCompare (a b : ImageRecord) : Outcome jsnum :=
  Done (numSub (toNumber (dateObj b)) (toNumber (dateObj a))).

(** The argument of [localeCompare] goes through ToString. *)
Definition toStringArg (v : option string) : string :=
  match v with
  | Some s => s
  | None => "undefined"
  end.

Section Sorting.
(** [String.prototype.localeCompare], which the engine's locale decides. *)
Variable localeCompare : string -> string -> Z.

(** [(a, b) => a.title.localeCompare(b.title)]: a TypeError when [a.title]
    is undefined. *)
Definition nameCompare (a b : ImageRecord) : Outcome jsnum :=
  match title a with
  | None => Thrown TypeError
  | Some ta => Done (Num (localeCompare ta (toStringArg (title b))))
  end.

Definition sortInPlace (cmp : ImageRecord -> ImageRecord -> Outcome jsnum)
  : M unit :=
  fun st =>
    match arraySort cmp (images st) with
    | Done l => (setImages l st, Done tt)
    | Thrown e => (st, Thrown e)
    | Pending => (st, Pending)
    end.

Definition sortImages (sortType : string) : M unit :=
  modify (setCurrentSort sortType) ;;;
  if (sortType =? "date")%string then sortInPlace dateCompare
  else if (sortType =? "name")%string then sortInPlace nameCompare
  else ret tt.

(** The titles are strings in non-decreasing order of the collation. *)
Definition titleLeb (a b : option string) : bool :=
  match a, b with
  | Some x, Some y => localeCompare x y <=? 0
  | _, _ => false
  end.
End Sorting.

(** ** First revision: the static descriptor (lines 1-160) *)

Module StaticGallery.

(** One entry of [metadata.images]. *)
Record RawImage := mkRaw {
  raw_filename : string;
  raw_title : option string;
  raw_date : option string;
  raw_description : option string
}.

(** What [fetch('../metadata.json')] and [response.json()] give: a failure
    (network error, a body that is not JSON, a document without the list
    [images]), or the list of entries. *)
Inductive DescriptorOutcome : Type :=
| DescriptorFailed
| Descriptor (entries : list RawImage).

Section Engine.
Variable localeCompare : string -> string -> Z.
(** [Date.parse]: the time value of a date string, NaN being [None]. *)
Variable parseDate : string -> option Z.
Variable descriptor : DescriptorOutcome.

(** [new Date(img.date)]; [new Date(undefined)] is an Invalid Date. *)
Definition newDateOf (d : option string) : DateVal :=
  match d with
  | Some s => DDate (parseDate s)
  | None => DDate None
  end.

(** [{...img, src: `../images/${img.filename}`, dateObj: new Date(img.date)}] *)
Definition toRecord (img : RawImage) : ImageRecord :=
  {| filename := raw_filename img;
     title := raw_title img;
     src := "../images/" ++ raw_filename img;
     dateObj := newDateOf (raw_date img);
     description := raw_description img;
     camera := None;
     software := None;
     dimensions := None |}.

Definition loadImagesFromDirectory : M unit :=
  modify (enter DirectoryListing) ;;;
  modify (setImages []) ;;;
  renderGallery.

Definition loadMetadata : M unit :=
  tryCatch
    (modify (enter StaticDescriptor) ;;;
     metadata <- await (match descriptor with
                        | DescriptorFailed => Thrown FetchError
                        | Descriptor entries => Done entries
                        end) ;;
     modify (setImages (map toRecord metadata)) ;;;
     sortImages localeCompare "date")
    (fun _ => loadImagesFromDirectory).

Definition init : M unit :=
  loadMetadata ;;;
  renderGallery ;;;
  setupEventListeners.
End Engine.

End StaticGallery.

(** ** Second revision: embedded metadata (lines 161-565) *)

Module ExifGallery.

(** The tags [EXIF.getAllTags] returns, as far as the page reads them. *)
Record AllTags := mkTags {
  DateTimeOriginal : option string;
  DateTime : option string;
  DateTimeDigitized : option string;
  ImageDescription : option string;
  XPTitle : option string;
  XPSubject : option string;
  XPComment : option string;
  UserComment : option string;
  Make : option string;
  Model : option string;
  Software : option string;
  ProcessingSoftware : option string
}.

(** The object extractImageMetadata resolves with when the tag reader ran. *)
Record Metadata := mkMeta {
  m_dateObj : DateVal;
  m_title : option string;
  m_description : option string;
  m_camera : option string;
  m_software : option string
}.

(** How extractImageMetadata ends for one image. *)
Inductive ExtractOutcome : Type :=
| NoTagReader                  (* window.EXIF is still unset: resolve({}) *)
| TagsRead (tags : AllTags)    (* the callback of EXIF.getData ran *)
| ExtractThrows                (* the promise is rejected *)
| ExtractHangs.                (* the callback never runs *)

(** How the load of one image ends: [onerror], or [onload] with the natural
    size, the outcome of the extraction and the clock at that moment. *)
Inductive ImageOutcome : Type :=
| ImgError
| ImgLoaded (width height : N) (extraction : ExtractOutcome) (clock : Z).

(** The answer of the repository-contents endpoint: a failure (network
    error, a response that is not ok, a body that is not a list of file
    entries), or the entries. *)
Inductive ListingOutcome : Type :=
| ListingFailed
| Listing (files : list File).

Record Env := mkEnv {
  listing : ListingOutcome;
  imageAt : string -> ImageOutcome      (* by [src] *)
}.

Definition commonPatterns : list string :=
  [ "character1.jpg"; "character2.jpg"; "character3.jpg"; "character4.jpg";
    "character5.jpg";
    "character1.png"; "character2.png"; "character3.png"; "character4.png";
    "character5.png";
    "art1.jpg"; "art2.jpg"; "art3.jpg"; "art4.jpg"; "art5.jpg";
    "drawing1.jpg"; "drawing2.jpg"; "drawing3.jpg"; "drawing4.jpg";
    "drawing5.jpg" ].

Definition imageSrc (fname : string) : string := "../images/" ++ fname.

(** [Promise.all]: the values in order once every promise is fulfilled. *)
Fixpoint promiseAll {A : Type} (l : list (Outcome A)) : Outcome (list A) :=
  match l with
  | [] => Done []
  | o :: r =>
      match o, promiseAll r with
      | Thrown e, _ => Thrown e
      | _, Thrown e => Thrown e
      | Done a, Done rs => Done (a :: rs)
      | _, _ => Pending
      end
  end.

(** [.filter(img => img !== null)] *)
Fixpoint dropNull {A : Type} (l : list (option A)) : list A :=
  match l with
  | [] => []
  | Some a :: r => a :: dropNull r
  | None :: r => dropNull r
  end.

(** [{ ...base, ...metadata }]: the five keys of a metadata object written
    by the tag callback replace those of the literal before the spread; the
    empty object replaces nothing. *)
Definition spread (metadata : option Metadata) (base : ImageRecord)
  : ImageRecord :=
  match metadata with
  | None => base
  | Some m =>
      {| filename := filename base;
         title := m_title m;
         src := src base;
         dateObj := m_dateObj m;
         description := m_description m;
         camera := m_camera m;
         software := m_software m;
         dimensions := dimensions base |}
  end.

(** [metadata.dateObj || dflt]: a [Date], even an invalid one, is truthy. *)
Definition dateOr (metadata : option Metadata) (dflt : DateVal) : DateVal :=
  match metadata with
  | Some m => match m_dateObj m with
              | DDate tv => DDate tv
              | DNull => dflt
              end
  | None => dflt
  end.

Definition titleOf (metadata : option Metadata) : option string :=
  match metadata with
  | Some m => m_title m
  | None => None
  end.

Definition descriptionOf (metadata : option Metadata) : option string :=
  match metadata with Some m => m_description m | None => None end.

Definition cameraOf (metadata : option Metadata) : option string :=
  match metadata with Some m => m_camera m | None => None end.

Definition softwareOf (metadata : option Metadata) : option string :=
  match metadata with Some m => m_software m | None => None end.

Definition showInstructions : M unit :=
  modify (fun st => setDom (setGallery [Instructions] (dom st)) st).

Section Engine.
Variable localeCompare : string -> string -> Z.
Variable parseDate : string -> option Z.
Variable env : Env.

(** The callback of [EXIF.getData] (lines 289-340). *)
Definition readTags (allTags : AllTags) : Metadata :=
  let dateTaken :=
    or (or (DateTimeOriginal allTags) (DateTime allTags))
       (DateTimeDigitized allTags) in
  {| m_dateObj :=
       match dateTaken with
       | Some s => if truthy dateTaken
                   then DDate (parseDate (exifDateToString s))
                   else DNull
       | None => DNull
       end;
     m_title :=
       or (or (ImageDescription allTags) (XPTitle allTags)) (XPSubject allTags);
     m_description :=
       or (or (XPComment allTags) (UserComment allTags))
          (ImageDescription allTags);
     m_camera :=
       match Make allTags, Model allTags with
       | Some mk, Some md =>
           if (truthy (Make allTags) && truthy (Model allTags))%bool
           then Some (mk ++ " " ++ md)
           else None
       | _, _ => None
       end;
     m_software := or (Software allTags) (ProcessingSoftware allTags) |}.

(** [None] is the empty object [{}]. *)
Definition extractImageMetadata (x : ExtractOutcome)
  : Outcome (option Metadata) :=
  match x with
  | NoTagReader => Done None
  | TagsRead tags => Done (Some (readTags tags))
  | ExtractThrows => Thrown TypeError
  | ExtractHangs => Pending
  end.

(** [new Date(file.sha || Date.now())] *)
Definition defaultDate (file : File) (clock : Z) : DateVal :=
  match sha file with
  | Some s => if truthy (sha file) then DDate (parseDate s)
              else DDate (Some clock)
  | None => DDate (Some clock)
  end.

Definition defaultTitle (fname : string) : string :=
  generateTitle (stripExtension fname).

(** The promise of loadImageWithMetadata: [None] is [null]. *)
Definition loadImageWithMetadata (file : File)
  : Outcome (option ImageRecord) :=
  let src := imageSrc (name file) in
  match imageAt env src with
  | ImgError => Done None
  | ImgLoaded w h x clock =>
      match extractImageMetadata x with
      | Done metadata =>
          Done (Some (spread metadata
            {| filename := name file;
               title := or (titleOf metadata)
                           (Some (defaultTitle (name file)));
               src := src;
               dateObj := dateOr metadata (defaultDate file clock);
               description := descriptionOf metadata;
               camera := cameraOf metadata;
               software := softwareOf metadata;
               dimensions := Some (w, h) |}))
      | Thrown _ =>
          Done (Some
            {| filename := name file;
               title := Some (defaultTitle (name file));
               src := src;
               dateObj := DDate (Some clock);
               description := None;
               camera := None;
               software := None;
               dimensions := Some (w, h) |})
      | Pending => Pending
      end
  end.

(** The loop of loadImagesFallback, one candidate after the other.  A
    rejected extraction leaves the awaited promise unsettled. *)
Fixpoint probe (patterns : list string) (validImages : list ImageRecord)
  : Outcome (list ImageRecord) :=
  match patterns with
  | [] => Done validImages
  | pattern :: rest =>
      let src := imageSrc pattern in
      match imageAt env src with
      | ImgError => probe rest validImages
      | ImgLoaded w h x clock =>
          match extractImageMetadata x with
          | Done metadata =>
              probe rest (validImages ++ [spread metadata
                {| filename := pattern;
                   title := or (titleOf metadata)
                               (Some (defaultTitle pattern));
                   src := src;
                   dateObj := dateOr metadata (DDate (Some clock));
                   description := None;
                   camera := None;
                   software := None;
                   dimensions := Some (w, h) |}])
          | _ => Pending
          end
      end
  end.

Definition loadImagesFallback : M unit :=
  modify (enter FilenameProbing) ;;;
  validImages <- await (probe commonPatterns []) ;;
  modify (setImages validImages) ;;;
  match validImages with
  | [] => showInstructions
  | _ => ret tt
  end.

Definition loadImagesFromGitHub : M unit :=
  tryCatch
    (modify (enter DirectoryListing) ;;;
     files <- await (match listing env with
                     | ListingFailed => Thrown FetchError
                     | Listing files => Done files
                     end) ;;
     let imageFiles := filter isImageFile files in
     let imagePromises := map loadImageWithMetadata imageFiles in
     loaded <- await (promiseAll imagePromises) ;;
     modify (setImages (dropNull loaded)))
    (fun _ => loadImagesFallback).

Definition loadImages : M unit :=
  loadImagesFromGitHub ;;;
  sortImages localeCompare "date".

Definition init : M unit :=
  loadImages ;;;
  renderGallery ;;;
  setupEventListeners.
End Engine.

End ExifGallery.

(** ** Reading of the sorted orders, and proof automation *)

(** The time values of the records, in order. *)
Definition dateValues (l : list ImageRecord) : list jsnum :=
  map (fun img => toNumber (dateObj img)) l.

Definition titles (l : list ImageRecord) : list (option string) :=
  map title l.

(** Newest first: every time value is at least the next one. *)
Definition newestFirst (l : list ImageRecord) : bool :=
  chain numGeb (dateValues l).

(** A host page before the script runs, and records to try the methods on. *)
Definition hostPage : Dom := mkDom [] "Loading artwork..." false false.

Definition sampleImage (fname : string) (t : option string) (d : DateVal)
  : ImageRecord :=
  mkImage fname t ("../images/" ++ fname) d None None None None.

Definition sampleGallery (l : list ImageRecord) : App :=
  setImages l (newGallery hostPage).

(** An image without any of the tags the page reads. *)
Definition noTags : ExifGallery.AllTags :=
  ExifGallery.mkTags None None None None None None None None None None None None.

(** An image whose only tag is its date of capture. *)
Definition datedTags (d : string) : ExifGallery.AllTags :=
  ExifGallery.mkTags (Some d) None None None None None None None None None None
                     None.

(** Case analysis on the 256 characters. *)
Ltac each_char c :=
  destruct c as [[] [] [] [] [] [] [] []]; vm_compute; try reflexivity;
  try discriminate; auto.

(** ** The modal viewer and the sort controls (lines 491-559) *)

(** What [#modalDate] shows: the date that was formatted, the dimensions, and
    the entries of [extraInfo], which the page joins with a bullet. *)
Record Caption := mkCaption {
  captionDate : DateVal;
  captionDimensions : option (N * N);
  captionExtra : list string
}.

Record Viewer := mkViewer {
  modalShown : bool;                 (* #modal style.display = 'block' *)
  modalImgSrc : string;              (* #modalImg src *)
  modalTitle : option string;        (* #modalTitle textContent *)
  modalDate : option Caption;        (* #modalDate, None before any image *)
  bodyOverflow : string              (* document.body.style.overflow *)
}.

(** [if (v) extraInfo.push(...)] for one optional field. *)
Definition pushIf (v : option string) (label : string) : list string :=
  match v with
  | Some s => if truthy v then [(label ++ s)%string] else []
  | None => []
  end.

(** The array [extraInfo] of openModal. *)
Definition extraInfo (img : ImageRecord) : list string :=
  (pushIf (description img) "" ++ pushIf (software img) "Created with: "
   ++ pushIf (camera img) "Camera: ")%list.

(** openModal: the assignments run in order, and [formatDate] may throw
    between them. *)
Definition openModal (img : ImageRecord) (v : Viewer)
  : Viewer * Outcome unit :=
  let v1 := mkViewer true (src img) (title img) (modalDate v) (bodyOverflow v) in
  match formatDate (dateObj img) with
  | Done _ =>
      (mkViewer true (src img) (title img)
                (Some (mkCaption (dateObj img) (dimensions img) (extraInfo img)))
                "hidden",
       Done tt)
  | Thrown e => (v1, Thrown e)
  | Pending => (v1, Pending)
  end.

Definition closeModal (v : Viewer) : Viewer :=
  mkViewer false (modalImgSrc v) (modalTitle v) (modalDate v) "auto".

(** The click handler of a sort button: updateActiveButton leaves [buttonId]
    as the only active control, then sortImages and renderGallery run.  The
    state is the list of active controls and the gallery object. *)
Definition sortClick (localeCompare : string -> string -> Z)
           (buttonId sortType : string) (ui : list string * App)
  : (list string * App) * Outcome unit :=
  let st := snd ui in
  let active := [buttonId] in
  let r := bind (sortImages localeCompare sortType) (fun _ => renderGallery) st in
  ((active, fst r), snd r).

(** ** Readings used by the further properties *)

(** A character of the ASCII range: on names made of these the case mapping
    of the model is that of [String.prototype.toLowerCase], which outside
    ASCII may change the length of a string. *)
Definition isAsciiChar (c : ascii) : bool := Nat.ltb (code c) 128.

(** Whether the image of a candidate name loads. *)
Definition loads (env : ExifGallery.Env) (fname : string) : bool :=
  match ExifGallery.imageAt env (ExifGallery.imageSrc fname) with
  | ExifGallery.ImgError => false
  | ExifGallery.ImgLoaded _ _ _ _ => true
  end.

Definition isNullDate (img : ImageRecord) : bool :=
  match dateObj img with
  | DNull => true
  | DDate _ => false
  end.

(** The records in front of the first one whose [dateObj] is [null]. *)
Fixpoint beforeNull (l : list ImageRecord) : list ImageRecord :=
  match l with
  | [] => []
  | img :: r => if isNullDate img then [] else img :: beforeNull r
  end.

(** The records whose time value is [t]. *)
Definition hasTime (t : Z) (img : ImageRecord) : bool :=
  match toNumber (dateObj img) with
  | Num z => (z =? t)
  | NaN => false
  end.

Definition hasTitle (s : string) (img : ImageRecord) : bool :=
  match title img with
  | Some x => (x =? s)%string
  | None => false
  end.

(** No date tag of the image is set and non-empty. *)
Definition noDateTag (tags : ExifGallery.AllTags) : bool :=
  negb (truthy (or (or (ExifGallery.DateTimeOriginal tags)
                       (ExifGallery.DateTime tags))
                   (ExifGallery.DateTimeDigitized tags))).

(** * Properties *)

(** ** Characters and strings *)

Lemma toLowerChar_dot (c : ascii) : (toLowerChar c =? ".")%char = (c =? ".")%char.
Proof. each_char c. Qed.

Lemma toUpperChar_word (c : ascii) : isWordChar (toUpperChar c) = isWordChar c.
Proof. each_char c. Qed.

Lemma toUpperChar_digit (c : ascii) : isDigit (toUpperChar c) = isDigit c.
Proof. each_char c. Qed.







Lemma hasChar_mapChars_absent (f : ascii -> ascii) (d : ascii) (s : string) :
  (forall c, (f c =? d)%char = false) -> hasChar d (mapChars f s) = false.
Proof.
  intros Hf. induction s as [|c r IH]; simpl; [reflexivity|].
  now rewrite Hf, IH.
Qed.






Lemma lastIndexOfFrom_absent (c : ascii) (s : string) (i acc : Z) :
  hasChar c s = false -> lastIndexOfFrom c s i acc = acc.
Proof.
  revert i acc. induction s as [|d r IH]; intros i acc H; simpl in *; [reflexivity|].
  apply orb_false_iff in H as [Hd Hr]. rewrite Hd. now apply IH.
Qed.

Lemma substringFrom_nonpositive (start : Z) (s : string) :
  start <= 0 -> substringFrom start s = s.
Proof.
  intros H. unfold substringFrom.
  replace (Z.to_nat _) with O by lia. reflexivity.
Qed.

Lemma hasChar_toLowerCase_dot (s : string) :
  hasChar "." (toLowerCase s) = hasChar "." s.
Proof.
  induction s as [|c r IH]; simpl; [reflexivity|].
  unfold toLowerCase in IH. now rewrite toLowerChar_dot, IH.
Qed.

Lemma includes_imageExtensions_dot (s : string) :
  includes s imageExtensions = true -> hasChar "." s = true.
Proof.
  unfold includes, imageExtensions. simpl. intros H.
  repeat (apply orb_true_iff in H as [H | H];
          [apply String.eqb_eq in H; subst s; reflexivity|]).
  discriminate.
Qed.

Lemma isTimeAt_colon (s : string) : isTimeAt s = true -> hasChar ":" s = true.
Proof.
  destruct s as [|d1 [|d2 [|c1 r]]]; simpl; try discriminate.
  destruct r as [|d3 [|d4 [|c2 [|d5 [|d6 r]]]]]; try discriminate.
  intros H. repeat (apply andb_true_iff in H as [H ?]).
  simpl. destruct (c1 =? ":")%char; [|discriminate].
  now rewrite !orb_true_r.
Qed.

Lemma dashBeforeTimeToSpace_no_colon (s : string) :
  hasChar ":" s = false -> dashBeforeTimeToSpace s = s.
Proof.
  induction s as [|c r IH]; simpl; intros H; [reflexivity|].
  apply orb_false_iff in H as [_ Hr].
  destruct (isTimeAt r) eqn:Ht.
  - apply isTimeAt_colon in Ht. congruence.
  - rewrite andb_false_r. now rewrite IH.
Qed.

Lemma colonToDash_no_colon (s : string) :
  hasChar ":" (mapChars colonToDash s) = false.
Proof.
  apply hasChar_mapChars_absent. intros c. each_char c.
Qed.

(** ** The claims on strings *)


(** C9. A file entry whose name holds no "." is never kept by the extension
    filter: lastIndexOf gives -1, the extension computed is the whole
    lower-case name, and that is none of the allowed extensions. *)
Theorem no_dot_never_image (file : File) :
  hasChar "." (name file) = false ->
  lastIndexOf "." (name file) = -1 /\
  fileExt (name file) = toLowerCase (name file) /\
  isImageFile file = false /\
  forall files : list File, ~ In file (filter isImageFile files).
Proof.
  intros H.
  assert (Hi : lastIndexOf "." (name file) = -1)
    by (unfold lastIndexOf; now apply lastIndexOfFrom_absent).
  assert (He : fileExt (name file) = toLowerCase (name file))
    by (unfold fileExt; rewrite Hi; now apply substringFrom_nonpositive).
  assert (Hf : isImageFile file = false).
  { unfold isImageFile. rewrite He.
    destruct (includes _ _) eqn:E; [|reflexivity].
    apply includes_imageExtensions_dot in E.
    rewrite hasChar_toLowerCase_dot in E. congruence. }
  repeat split; try assumption.
  intros files Hin. apply filter_In in Hin as [_ Hin]. congruence.
Qed.

Lemma no_dot_never_image_witness :
  hasChar "." (name (mkFile "README" None)) = false /\
  isImageFile (mkFile "README" None) = false.
Proof.
  split; [reflexivity|].
  apply (no_dot_never_image (mkFile "README" None)). reflexivity.
Defined.

(** ** The sort *)

Section ArraySortFacts.
Context {A : Type}.
Variable cmp : A -> A -> Outcome jsnum.

Lemma insert_perm (x : A) (l r : list A) :
  insert cmp x l = Done r -> Permutation (x :: l) r.
Proof.
  revert r. induction l as [|y l IH]; intros r H; simpl in H.
  - injection H as <-. apply Permutation_refl.
  - destruct (sortCompare cmp x y) as [v | |]; try discriminate.
    destruct (v <=? 0).
    + injection H as <-. apply Permutation_refl.
    + destruct (insert cmp x l) as [r' | |]; try discriminate.
      injection H as <-.
      eapply perm_trans; [apply perm_swap|]. apply perm_skip. now apply IH.
Qed.

Lemma arraySort_perm (l r : list A) :
  arraySort cmp l = Done r -> Permutation l r.
Proof.
  revert r. induction l as [|x l IH]; intros r H; simpl in H.
  - injection H as <-. apply perm_nil.
  - destruct (arraySort cmp l) as [l' | |]; try discriminate.
    eapply perm_trans; [apply perm_skip, IH; reflexivity|].
    now apply insert_perm.
Qed.

(** Where [insert] puts the new element: in front, or behind the head after
    a comparison that came out positive. *)
Lemma insert_head (x : A) (l r : list A) :
  insert cmp x l = Done r ->
  r = x :: l \/
  exists y l' r' v, l = y :: l' /\ r = y :: r' /\ insert cmp x l' = Done r' /\
                    sortCompare cmp x y = Done v /\ 0 < v.
Proof.
  destruct l as [|y l]; simpl; intros H.
  - injection H as <-. now left.
  - destruct (sortCompare cmp x y) as [v | |] eqn:Hc; try discriminate.
    destruct (v <=? 0) eqn:Hv.
    + injection H as <-. now left.
    + destruct (insert cmp x l) as [r' | |] eqn:Hi; try discriminate.
      injection H as <-. right. exists y, l, r', v.
      repeat split; auto. apply Z.leb_gt in Hv. lia.
Qed.


Section WeakAntisymmetry.
Hypothesis weak_antisym : forall x y v w,
  sortCompare cmp x y = Done v -> 0 < v ->
  sortCompare cmp y x = Done w -> w <= 0.



End WeakAntisymmetry.

Section Total.
Variable P : A -> Prop.
Hypothesis total : forall x y, P x -> P y ->
  exists v, sortCompare cmp x y = Done v /\ (0 < v -> leq cmp y x = true).

Lemma insert_chain (x : A) (l : list A) :
  P x -> Forall P l -> chain (leq cmp) l = true ->
  exists r, insert cmp x l = Done r /\ chain (leq cmp) r = true.
Proof.
  intros Px. induction l as [|y l IH]; intros Pl C.
  - exists [x]. split; reflexivity.
  - inversion Pl as [|? ? Py Pl']; subst.
    destruct (total x y Px Py) as (v & Hc & Hv).
    simpl. rewrite Hc. destruct (v <=? 0) eqn:E.
    + exists (x :: y :: l). split; [reflexivity|].
      change (chain (leq cmp) (x :: y :: l))
        with (leq cmp x y && chain (leq cmp) (y :: l))%bool.
      unfold leq at 1. now rewrite Hc, E, C.
    + assert (Cl : chain (leq cmp) l = true).
      { destruct l as [|z l]; [reflexivity|].
        change (leq cmp y z && chain (leq cmp) (z :: l) = true)%bool in C.
        now apply andb_true_iff in C as [_ C]. }
      destruct (IH Pl' Cl) as (r' & Hi & Cr). rewrite Hi.
      exists (y :: r'). split; [reflexivity|].
      apply Z.leb_gt in E.
      destruct (insert_head x l r' Hi) as [-> | (z & l' & r'' & v' & -> & -> & _)].
      * change (leq cmp y x && chain (leq cmp) (x :: l) = true)%bool.
        rewrite Hv by lia. exact Cr.
      * change (leq cmp y z && chain (leq cmp) (z :: r'') = true)%bool.
        change (leq cmp y z && chain (leq cmp) (z :: l') = true)%bool in C.
        apply andb_true_iff in C as [-> _]. exact Cr.
Qed.

Lemma arraySort_chain (l : list A) :
  Forall P l ->
  exists r, arraySort cmp l = Done r /\ chain (leq cmp) r = true /\
            Permutation l r.
Proof.
  induction l as [|x l IH]; intros Pl.
  - exists []. repeat split. apply perm_nil.
  - inversion Pl as [|? ? Px Pl']; subst.
    destruct (IH Pl') as (l' & Hs & C & Perm).
    assert (Pl2 : Forall P l').
    { apply Forall_forall. intros z Hz. rewrite Forall_forall in Pl'.
      apply Pl'. eapply Permutation_in; [apply Permutation_sym|]; eauto. }
    destruct (insert_chain x l' Px Pl2 C) as (r & Hi & Cr).
    exists r. simpl. rewrite Hs. repeat split; auto.
    eapply perm_trans; [apply perm_skip, Perm|]. now apply insert_perm.
Qed.
End Total.
End ArraySortFacts.

Lemma chain_map {A B : Type} (le : A -> A -> bool) (le' : B -> B -> bool)
      (f : A -> B) (l : list A) :
  (forall x y, In x l -> In y l -> le x y = true -> le' (f x) (f y) = true) ->
  chain le l = true -> chain le' (map f l) = true.
Proof.
  induction l as [|x l IH]; intros H C; [reflexivity|].
  destruct l as [|y l]; [reflexivity|].
  change (le x y && chain le (y :: l) = true)%bool in C.
  apply andb_true_iff in C as [Cxy C].
  change (le' (f x) (f y) && chain le' (map f (y :: l)) = true)%bool.
  rewrite (H x y); simpl; auto.
  apply IH; [|exact C]. intros a b Ha Hb. apply H; now right.
Qed.

Lemma consistent_antisym {A : Type} (cmp : A -> A -> Z) :
  consistent cmp -> forall a b, 0 < cmp a b -> cmp b a < 0.
Proof.
  intros (Hrefl & Hsym & _ & _ & Hgt) a b H.
  destruct (Z.compare_spec (cmp b a) 0) as [E | E | E]; [| exact E |].
  - apply Hsym in E. lia.
  - assert (cmp a a > 0) by (apply (Hgt a b a); lia).
    rewrite Hrefl in *. lia.
Qed.

Lemma string_compare_refl (s : string) : String.compare s s = Eq.
Proof.
  induction s as [|c s IH]; simpl; [reflexivity|].
  replace (Ascii.compare c c) with Eq; [exact IH|].
  symmetry. unfold Ascii.compare. apply N.compare_refl.
Qed.

Lemma string_compare_lt_trans (a b c : string) :
  String.compare a b = Lt -> String.compare b c = Lt -> String.compare a c = Lt.
Proof.
  revert b c. induction a as [|x a IH]; intros [|y b] [|z c]; simpl;
    try discriminate; auto.
  unfold Ascii.compare.
  destruct (N.compare_spec (N_of_ascii x) (N_of_ascii y)) as [E1 | E1 | E1];
    try discriminate;
    destruct (N.compare_spec (N_of_ascii y) (N_of_ascii z)) as [E2 | E2 | E2];
    try discriminate; intros H1 H2.
  - rewrite E1, E2, N.compare_refl. eapply IH; eauto.
  - rewrite E1. apply N.compare_lt_iff in E2. now rewrite E2.
  - rewrite <- E2. apply N.compare_lt_iff in E1. now rewrite E1.
  - assert (E : (N_of_ascii x < N_of_ascii z)%N) by (eapply N.lt_trans; eauto).
    apply N.compare_lt_iff in E. now rewrite E.
Qed.

Lemma codeUnitCompare_consistent : consistent codeUnitCompare.
Proof.
  assert (Hlt : forall a b, codeUnitCompare a b < 0 <-> String.compare a b = Lt).
  { intros a b. unfold codeUnitCompare. destruct (String.compare a b);
      split; intros; try lia; try discriminate; reflexivity. }
  assert (Hgt : forall a b, codeUnitCompare a b > 0 <-> String.compare b a = Lt).
  { intros a b. unfold codeUnitCompare. rewrite (String.compare_antisym b a).
    destruct (String.compare a b); simpl;
      split; intros; try lia; try discriminate; reflexivity. }
  assert (Heq : forall a b, codeUnitCompare a b = 0 <-> a = b).
  { intros a b. unfold codeUnitCompare. split.
    - destruct (String.compare a b) eqn:E; try lia.
      intros _. now apply String.compare_eq_iff.
    - intros ->. now rewrite string_compare_refl. }
  repeat split.
  - intros a. now apply Heq.
  - intros a b H. apply Heq. symmetry. now apply Heq.
  - intros a b c H1 H2. apply Heq. apply Heq in H1, H2. congruence.
  - intros a b c H1 H2. apply Hlt. apply Hlt in H1, H2.
    eapply string_compare_lt_trans; eauto.
  - intros a b c H1 H2. apply Hgt. apply Hgt in H1, H2.
    eapply string_compare_lt_trans; eauto.
Qed.

(** ** sortImages *)

Lemma sortImages_date (lc : string -> string -> Z) (st : App) :
  sortImages lc "date" st = sortInPlace dateCompare (setCurrentSort "date" st).
Proof. reflexivity. Qed.

Lemma sortImages_name (lc : string -> string -> Z) (st : App) :
  sortImages lc "name" st = sortInPlace (nameCompare lc) (setCurrentSort "name" st).
Proof. reflexivity. Qed.

Lemma sortImages_other (lc : string -> string -> Z) (key : string) (st : App) :
  (key =? "date")%string = false -> (key =? "name")%string = false ->
  sortImages lc key st = (setCurrentSort key st, Done tt).
Proof.
  intros H1 H2. unfold sortImages, bind, modify. rewrite H1, H2. reflexivity.
Qed.

Lemma sortInPlace_frame (cmp : ImageRecord -> ImageRecord -> Outcome jsnum)
      (st : App) :
  currentSort (fst (sortInPlace cmp st)) = currentSort st /\
  Permutation (images st) (images (fst (sortInPlace cmp st))) /\
  dom (fst (sortInPlace cmp st)) = dom st /\
  invoked (fst (sortInPlace cmp st)) = invoked st /\
  listening (fst (sortInPlace cmp st)) = listening st.
Proof.
  unfold sortInPlace.
  destruct (arraySort cmp (images st)) as [l | |] eqn:E; simpl;
    repeat split; auto using Permutation_refl.
  now apply (arraySort_perm cmp).
Qed.

Lemma dateCompare_sortCompare (x y : ImageRecord) :
  sortCompare dateCompare x y
  = Done (match numSub (toNumber (dateObj y)) (toNumber (dateObj x)) with
          | NaN => 0
          | Num v => v
          end).
Proof. unfold sortCompare, dateCompare. now destruct (numSub _ _). Qed.



Lemma dateCompare_total (x y : ImageRecord) :
  True -> True ->
  exists v, sortCompare dateCompare x y = Done v /\
            (0 < v -> leq dateCompare y x = true).
Proof.
  intros _ _. eexists. split; [apply dateCompare_sortCompare|].
  unfold leq. rewrite dateCompare_sortCompare.
  destruct (toNumber (dateObj x)), (toNumber (dateObj y)); simpl; intros H;
    lia.
Qed.

Lemma nameCompare_total (lc : string -> string -> Z) :
  consistent lc -> forall x y, title x <> None -> title y <> None ->
  exists v, sortCompare (nameCompare lc) x y = Done v /\
            (0 < v -> leq (nameCompare lc) y x = true).
Proof.
  intros Hc x y Hx Hy. unfold leq, sortCompare, nameCompare.
  destruct (title x) as [tx|]; [|congruence].
  destruct (title y) as [ty|]; [|congruence]. simpl.
  eexists. split; [reflexivity|]. intros H.
  apply (consistent_antisym lc Hc) in H. apply Z.leb_le. lia.
Qed.

Lemma leq_dateCompare_numGeb (x y : ImageRecord) :
  toNumber (dateObj x) <> NaN -> toNumber (dateObj y) <> NaN ->
  leq dateCompare x y = true ->
  numGeb (toNumber (dateObj x)) (toNumber (dateObj y)) = true.
Proof.
  unfold leq. rewrite dateCompare_sortCompare.
  destruct (toNumber (dateObj x)), (toNumber (dateObj y)); simpl;
    try congruence.
  intros _ _ H. apply Z.leb_le in H. apply Z.leb_le. lia.
Qed.

Lemma leq_nameCompare_titleLeb (lc : string -> string -> Z) (x y : ImageRecord) :
  title x <> None -> title y <> None ->
  leq (nameCompare lc) x y = true -> titleLeb lc (title x) (title y) = true.
Proof.
  unfold leq, sortCompare, nameCompare, titleLeb.
  destruct (title x), (title y); simpl; congruence.
Qed.

Lemma Forall_perm {A : Type} (P : A -> Prop) (l r : list A) :
  Permutation l r -> Forall P l -> Forall P r.
Proof.
  intros Hp Hl. apply Forall_forall. intros z Hz.
  rewrite Forall_forall in Hl. apply Hl.
  eapply Permutation_in; [apply Permutation_sym|]; eauto.
Qed.

(** C1, as amended.  Whenever no [dateObj] of the collection is an Invalid
    Date, sortImages('date') completes and leaves the time values (that of
    [null] being 0, as the subtraction reads it) non-increasing; whenever
    every title is a string, sortImages('name') completes and leaves the
    titles non-decreasing under localeCompare, any consistent comparison. *)
Theorem sortImages_orders (lc : string -> string -> Z) :
  consistent lc -> forall st : App,
  (Forall (fun img => toNumber (dateObj img) <> NaN) (images st) ->
   snd (sortImages lc "date" st) = Done tt /\
   newestFirst (images (fst (sortImages lc "date" st))) = true) /\
  (Forall (fun img => title img <> None) (images st) ->
   snd (sortImages lc "name" st) = Done tt /\
   chain (titleLeb lc) (titles (images (fst (sortImages lc "name" st)))) = true).
Proof.
  intros Hc st. split; intros Hall.
  - rewrite sortImages_date. unfold sortInPlace.
    destruct (arraySort_chain dateCompare (fun _ => True) dateCompare_total
                (images (setCurrentSort "date" st)))
      as (r & Hs & C & Perm).
    { apply Forall_forall. auto. }
    rewrite Hs. simpl. split; [reflexivity|].
    unfold newestFirst, dateValues.
    apply (chain_map (leq dateCompare)); [|exact C].
    pose proof (Forall_perm _ _ _ Perm Hall) as Hr. rewrite Forall_forall in Hr.
    intros x y Hx Hy. apply leq_dateCompare_numGeb; auto.
  - rewrite sortImages_name. unfold sortInPlace.
    destruct (arraySort_chain (nameCompare lc) (fun img => title img <> None)
                (nameCompare_total lc Hc) (images (setCurrentSort "name" st)))
      as (r & Hs & C & Perm); [exact Hall|].
    rewrite Hs. simpl. split; [reflexivity|].
    unfold titles.
    apply (chain_map (leq (nameCompare lc))); [|exact C].
    pose proof (Forall_perm _ _ _ Perm Hall) as Hr. rewrite Forall_forall in Hr.
    intros x y Hx Hy. apply leq_nameCompare_titleLeb; auto.
Qed.



Lemma arraySort_untitled (lc : string -> string -> Z) (l : list ImageRecord) :
  Forall (fun img => title img = None) l -> (2 <= List.length l)%nat ->
  arraySort (nameCompare lc) l = Thrown TypeError.
Proof.
  induction l as [|x l IH]; intros Hall Hlen; [simpl in Hlen; lia|].
  inversion Hall as [|? ? Hx Hl]; subst.
  destruct l as [|y l']; [simpl in Hlen; lia|].
  change (match arraySort (nameCompare lc) (y :: l') with
          | Done r' => insert (nameCompare lc) x r'
          | Thrown e => Thrown e
          | Pending => Pending
          end = Thrown TypeError).
  destruct l' as [|y' l''].
  - simpl. unfold sortCompare, nameCompare. now rewrite Hx.
  - rewrite IH; [reflexivity|exact Hl|simpl; lia].
Qed.


(** C10. A sort key other than 'date' and 'name' leaves the collection as it
    is and is still recorded in currentSort; and whatever the key, the
    collection after the call holds the very records it held before, each as
    often, and nothing else of the gallery changes. *)
Theorem sortImages_frame (lc : string -> string -> Z) (key : string) (st : App) :
  (key <> "date" -> key <> "name" ->
   sortImages lc key st = (setCurrentSort key st, Done tt) /\
   images (fst (sortImages lc key st)) = images st) /\
  currentSort (fst (sortImages lc key st)) = key /\
  Permutation (images st) (images (fst (sortImages lc key st))) /\
  dom (fst (sortImages lc key st)) = dom st /\
  invoked (fst (sortImages lc key st)) = invoked st.
Proof.
  split.
  { intros H1 H2. apply String.eqb_neq in H1, H2.
    rewrite (sortImages_other lc key st H1 H2). split; reflexivity. }
  destruct (key =? "date")%string eqn:E1.
  { apply String.eqb_eq in E1. subst key. rewrite sortImages_date.
    destruct (sortInPlace_frame dateCompare (setCurrentSort "date" st))
      as (? & ? & ? & ? & ?). auto. }
  destruct (key =? "name")%string eqn:E2.
  { apply String.eqb_eq in E2. subst key. rewrite sortImages_name.
    destruct (sortInPlace_frame (nameCompare lc) (setCurrentSort "name" st))
      as (? & ? & ? & ? & ?). auto. }
  rewrite (sortImages_other lc key st E1 E2). simpl.
  auto using Permutation_refl.
Qed.

Lemma sortImages_orders_witness :
  let st := sampleGallery
              [ sampleImage "a.jpg" (Some "Heron") (DDate (Some 1704067200000));
                sampleImage "b.jpg" (Some "Alder") (DDate (Some 1717200000000));
                sampleImage "c.jpg" (Some "Finch") DNull ] in
  consistent codeUnitCompare /\
  Forall (fun img => toNumber (dateObj img) <> NaN) (images st) /\
  Forall (fun img => title img <> None) (images st) /\
  newestFirst (images (fst (sortImages codeUnitCompare "date" st))) = true /\
  chain (titleLeb codeUnitCompare)
        (titles (images (fst (sortImages codeUnitCompare "name" st)))) = true.
Proof.
  intros st.
  assert (Hd : Forall (fun img => toNumber (dateObj img) <> NaN) (images st))
    by (repeat constructor; discriminate).
  assert (Hn : Forall (fun img => title img <> None) (images st))
    by (repeat constructor; discriminate).
  destruct (sortImages_orders codeUnitCompare codeUnitCompare_consistent st)
    as [Hdate Hname].
  split; [exact codeUnitCompare_consistent|].
  split; [exact Hd|]. split; [exact Hn|].
  split; [apply (Hdate Hd) | apply (Hname Hn)].
Defined.

(** C1, as stated, fails.  With an Invalid Date between two dates the
    collection is not newest first after sortImages('date'), nor is any
    other arrangement of these records; with titles that are undefined
    sortImages('name') throws a TypeError and the titles are in no order of
    localeCompare. *)
Lemma sortImages_orders_counterexample :
  let dated := sampleGallery
                 [ sampleImage "a.jpg" (Some "a") (DDate (Some 1));
                   sampleImage "b.jpg" (Some "b") (DDate None);
                   sampleImage "c.jpg" (Some "c") (DDate (Some 2)) ] in
  let untitled := sampleGallery
                    [ sampleImage "a.jpg" None (DDate (Some 1));
                      sampleImage "b.jpg" None (DDate (Some 2)) ] in
  images dated <> [] /\
  newestFirst (images (fst (sortImages codeUnitCompare "date" dated))) = false /\
  (forall l, Permutation (images dated) l -> newestFirst l = false) /\
  images untitled <> [] /\
  snd (sortImages codeUnitCompare "name" untitled) = Thrown TypeError /\
  chain (titleLeb codeUnitCompare)
        (titles (images (fst (sortImages codeUnitCompare "name" untitled))))
  = false.
Proof.
  intros dated untitled.
  split; [discriminate|]. split; [reflexivity|].
  split; [|split; [discriminate|split; reflexivity]].
  intros l Hp.
  assert (Hin : In (sampleImage "b.jpg" (Some "b") (DDate None)) l)
    by (eapply Permutation_in; [exact Hp|]; simpl; auto).
  apply Permutation_length in Hp.
  destruct l as [|x [|y [|z [|? ?]]]]; try discriminate.
  destruct Hin as [E | [E | [E | []]]]; subst;
    unfold newestFirst, dateValues; simpl.
  - reflexivity.
  - destruct (toNumber (dateObj x)); reflexivity.
  - destruct (toNumber (dateObj y));
      destruct (numGeb (toNumber (dateObj x)) _); reflexivity.
Qed.


Lemma sortImages_frame_witness :
  let st := sampleGallery
              [ sampleImage "a.jpg" (Some "Heron") (DDate (Some 1704067200000));
                sampleImage "b.jpg" (Some "Alder") (DDate (Some 1717200000000)) ] in
  "size" <> "date" /\ "size" <> "name" /\
  currentSort (fst (sortImages codeUnitCompare "size" st)) = "size" /\
  images (fst (sortImages codeUnitCompare "size" st)) = images st.
Proof.
  intros st.
  assert (H1 : "size" <> "date") by discriminate.
  assert (H2 : "size" <> "name") by discriminate.
  destruct (sortImages_frame codeUnitCompare "size" st) as (Hother & Hkey & _).
  split; [exact H1|]. split; [exact H2|]. split; [exact Hkey|].
  apply (Hother H1 H2).
Defined.

(** ** What the methods leave untouched *)

Lemma bind_fst {A B : Type} (P : App -> App -> Prop) (m : M A) (k : A -> M B)
      (st : App) :
  (forall a st', P st' (fst (k a st'))) -> (forall s, P s s) ->
  P (fst (m st)) (fst (bind m k st)).
Proof.
  intros Hk Hr. unfold bind. destruct (m st) as [st' [a | e |]]; simpl; auto.
Qed.

Lemma sortImages_keeps (lc : string -> string -> Z) (key : string) (st : App) :
  invoked (fst (sortImages lc key st)) = invoked st /\
  dom (fst (sortImages lc key st)) = dom st /\
  listening (fst (sortImages lc key st)) = listening st.
Proof.
  unfold sortImages, bind, modify, sortInPlace, ret.
  destruct (key =? "date")%string; [|destruct (key =? "name")%string]; simpl;
    try destruct (arraySort _ (images st)); simpl; auto.
Qed.

Lemma sortImages_date_done (lc : string -> string -> Z) (st : App) :
  snd (sortImages lc "date" st) = Done tt.
Proof.
  rewrite sortImages_date. unfold sortInPlace.
  destruct (arraySort_chain dateCompare (fun _ => True) dateCompare_total
              (images (setCurrentSort "date" st))) as (r & Hs & _).
  { apply Forall_forall. auto. }
  now rewrite Hs.
Qed.

Lemma sortImages_date_empty (lc : string -> string -> Z) (st : App) :
  images st = [] -> images (fst (sortImages lc "date" st)) = [].
Proof.
  intros H. rewrite sortImages_date. unfold sortInPlace. simpl. now rewrite H.
Qed.

Lemma renderGallery_keeps (st : App) :
  images (fst (renderGallery st)) = images st /\
  invoked (fst (renderGallery st)) = invoked st /\
  currentSort (fst (renderGallery st)) = currentSort st.
Proof.
  unfold renderGallery. cbv zeta.
  destruct (images (setDom _ st)) as [|img l] eqn:E.
  - repeat split.
  - destruct (appendCards _ _) as [g [[] | e |]]; repeat split.
Qed.


(** ** Loading through the listing *)

Section Loading.
Variable parseDate : string -> option Z.
Variable env : ExifGallery.Env.

Lemma loadImageWithMetadata_not_thrown (f : File) (e : JsError) :
  ExifGallery.loadImageWithMetadata parseDate env f <> Thrown e.
Proof.
  unfold ExifGallery.loadImageWithMetadata.
  destruct (ExifGallery.imageAt env _) as [|w h [| tags | |] c]; discriminate.
Qed.

Lemma loadImageWithMetadata_error (f : File) :
  ExifGallery.imageAt env (ExifGallery.imageSrc (name f)) = ExifGallery.ImgError <->
  ExifGallery.loadImageWithMetadata parseDate env f = Done None.
Proof.
  unfold ExifGallery.loadImageWithMetadata.
  destruct (ExifGallery.imageAt env _) as [|w h [| tags | |] c]; simpl;
    split; intros H; try reflexivity; discriminate.
Qed.

Lemma loadImageWithMetadata_record (f : File) (img : ImageRecord) :
  ExifGallery.loadImageWithMetadata parseDate env f = Done (Some img) ->
  filename img = name f.
Proof.
  unfold ExifGallery.loadImageWithMetadata.
  destruct (ExifGallery.imageAt env _) as [|w h [| tags | |] c]; simpl;
    intros H; try discriminate; injection H as <-; reflexivity.
Qed.

Lemma loadImageWithMetadata_pending (f : File) :
  ExifGallery.loadImageWithMetadata parseDate env f = Pending ->
  exists w h c,
    ExifGallery.imageAt env (ExifGallery.imageSrc (name f))
    = ExifGallery.ImgLoaded w h ExifGallery.ExtractHangs c.
Proof.
  unfold ExifGallery.loadImageWithMetadata.
  destruct (ExifGallery.imageAt env _) as [|w h [| tags | |] c]; simpl;
    intros H; try discriminate. now exists w, h, c.
Qed.
End Loading.

Lemma promiseAll_not_thrown {A : Type} (l : list (Outcome A)) :
  (forall o e, In o l -> o <> Thrown e) ->
  forall e, ExifGallery.promiseAll l <> Thrown e.
Proof.
  induction l as [|o l IH]; intros H e; simpl; [discriminate|].
  assert (Ho : forall e', o <> Thrown e') by (intros e'; apply H; now left).
  assert (Hl : forall e', ExifGallery.promiseAll l <> Thrown e')
    by (apply IH; intros o' e' Hin; apply H; now right).
  destruct o as [a | e' |]; [| now destruct (Ho e') |];
    destruct (ExifGallery.promiseAll l) as [rs | e' |]; try discriminate;
    now destruct (Hl e').
Qed.

Lemma promiseAll_done {A : Type} (l : list (Outcome A)) (vs : list A) :
  ExifGallery.promiseAll l = Done vs -> l = map Done vs.
Proof.
  revert vs. induction l as [|o l IH]; intros vs H; simpl in H.
  - now injection H as <-.
  - destruct o as [a | e |];
      destruct (ExifGallery.promiseAll l) as [rs | e' |]; try discriminate.
    injection H as <-. simpl. f_equal. now apply IH.
Qed.

Lemma promiseAll_pending {A : Type} (l : list (Outcome A)) :
  ExifGallery.promiseAll l = Pending -> In Pending l.
Proof.
  induction l as [|o l IH]; simpl; [discriminate|].
  destruct o as [a | e |]; [| discriminate | now left].
  destruct (ExifGallery.promiseAll l) as [rs | e' |]; try discriminate.
  intros _. right. now apply IH.
Qed.

Lemma dropNull_In {A : Type} (l : list (option A)) (a : A) :
  In a (ExifGallery.dropNull l) <-> In (Some a) l.
Proof.
  induction l as [|[b|] l IH]; simpl; [tauto| |].
  - rewrite IH. split; intros [H | H]; auto; left; congruence.
  - rewrite IH. split; [auto|]. intros [H | H]; [discriminate|exact H].
Qed.

Lemma dropNull_length {A : Type} (l : list (option A)) :
  (List.length (ExifGallery.dropNull l) <= List.length l)%nat.
Proof. induction l as [|[b|] l IH]; simpl; lia. Qed.

Lemma filter_length_bound {A : Type} (p : A -> bool) (l : list A) :
  (List.length (filter p l) <= List.length l)%nat.
Proof. induction l as [|a l IH]; simpl; [lia|]. destruct (p a); simpl; lia. Qed.

Lemma loadImagesFromGitHub_listing (parseDate : string -> option Z)
      (files : list File) (imageAt : string -> ExifGallery.ImageOutcome)
      (st : App) :
  let env := ExifGallery.mkEnv (ExifGallery.Listing files) imageAt in
  ExifGallery.loadImagesFromGitHub parseDate env st
  = match ExifGallery.promiseAll
            (map (ExifGallery.loadImageWithMetadata parseDate env)
                 (filter isImageFile files)) with
    | Done loaded =>
        (setImages (ExifGallery.dropNull loaded) (enter DirectoryListing st),
         Done tt)
    | _ => (enter DirectoryListing st, Pending)
    end.
Proof.
  intros env.
  unfold ExifGallery.loadImagesFromGitHub, tryCatch, bind, modify, await. simpl.
  destruct (ExifGallery.promiseAll _) as [loaded | e |] eqn:E; try reflexivity.
  exfalso. revert E. apply promiseAll_not_thrown.
  intros o e' Hin. apply in_map_iff in Hin as (f & <- & _).
  apply loadImageWithMetadata_not_thrown.
Qed.


Lemma probe_not_thrown (parseDate : string -> option Z) (env : ExifGallery.Env)
      (patterns : list string) (valid : list ImageRecord) (e : JsError) :
  ExifGallery.probe parseDate env patterns valid <> Thrown e.
Proof.
  revert valid. induction patterns as [|p ps IH]; intros valid; simpl;
    [discriminate|].
  destruct (ExifGallery.imageAt env _) as [|w h [| tags | |] c]; simpl;
    try apply IH; discriminate.
Qed.

Lemma loadImagesFallback_invoked (parseDate : string -> option Z)
      (env : ExifGallery.Env) (st : App) :
  invoked (fst (ExifGallery.loadImagesFallback parseDate env st))
  = (invoked st ++ [FilenameProbing])%list /\
  forall e, snd (ExifGallery.loadImagesFallback parseDate env st) <> Thrown e.
Proof.
  pose proof (probe_not_thrown parseDate env ExifGallery.commonPatterns []) as Hp.
  cbv beta iota zeta delta [ExifGallery.loadImagesFallback bind modify await].
  destruct (ExifGallery.probe parseDate env ExifGallery.commonPatterns [])
    as [[|img l] | e |]; cbv beta iota; split; try reflexivity; try discriminate.
  intros e'. now destruct (Hp e).
Qed.

Lemma loadImagesFromGitHub_failed (parseDate : string -> option Z)
      (imageAt : string -> ExifGallery.ImageOutcome) (st : App) :
  let env := ExifGallery.mkEnv ExifGallery.ListingFailed imageAt in
  ExifGallery.loadImagesFromGitHub parseDate env st
  = ExifGallery.loadImagesFallback parseDate env (enter DirectoryListing st).
Proof.
  intros env.
  cbv beta iota zeta delta
      [ExifGallery.loadImagesFromGitHub tryCatch bind modify await
       ExifGallery.listing env].
  reflexivity.
Qed.

Lemma loadImagesFromGitHub_outcome (parseDate : string -> option Z)
      (env : ExifGallery.Env) (st : App) :
  (forall e, snd (ExifGallery.loadImagesFromGitHub parseDate env st) <> Thrown e) /\
  invoked (fst (ExifGallery.loadImagesFromGitHub parseDate env st))
  = match ExifGallery.listing env with
    | ExifGallery.Listing _ => (invoked st ++ [DirectoryListing])%list
    | ExifGallery.ListingFailed =>
        (invoked st ++ [DirectoryListing; FilenameProbing])%list
    end.
Proof.
  destruct env as [[|files] imageAt]; simpl.
  - rewrite loadImagesFromGitHub_failed.
    destruct (loadImagesFallback_invoked parseDate
                (ExifGallery.mkEnv ExifGallery.ListingFailed imageAt)
                (enter DirectoryListing st)) as [Hi Ht].
    split; [exact Ht|]. rewrite Hi. simpl. now rewrite <- app_assoc.
  - rewrite loadImagesFromGitHub_listing.
    destruct (ExifGallery.promiseAll _) as [loaded | e |]; simpl;
      split; try reflexivity; discriminate.
Qed.

Lemma StaticGallery_loadMetadata_ok (lc : string -> string -> Z)
      (parseDate : string -> option Z) (entries : list StaticGallery.RawImage)
      (st : App) :
  StaticGallery.loadMetadata lc parseDate (StaticGallery.Descriptor entries) st
  = sortImages lc "date"
      (setImages (map (StaticGallery.toRecord parseDate) entries)
                 (enter StaticDescriptor st)).
Proof.
  unfold StaticGallery.loadMetadata, tryCatch, bind at 1 2 3, modify, await.
  simpl.
  pose proof (sortImages_date_done lc
    (setImages (map (StaticGallery.toRecord parseDate) entries)
               (enter StaticDescriptor st))) as Hd.
  destruct (sortImages lc "date" _) as [st' o]. simpl in Hd. now subst o.
Qed.

(** ** The claims on loading and rendering *)

(** C2. The claim does not hold of the code, by a slip.  The record literal
    of loadImageWithMetadata computes the default
    [metadata.dateObj || new Date(...)], but the spread of [metadata] that
    ends the literal writes [metadata.dateObj] over it: for an image that
    loads, with a tag reader at hand and no date among its tags, the record
    carries [dateObj = null] (and an undefined title).  The same holds of the
    records of loadImagesFallback; and rendering such a record throws a
    TypeError out of [init]. *)
Theorem undated_image_gets_null_date (lc : string -> string -> Z)
        (parseDate : string -> option Z) (w h : N) (clock : Z) :
  let file := mkFile "sketch.jpg" (Some "3d21ec53a331a6f037a91c368710b99387d012c1") in
  let imageAt := fun _ : string =>
    ExifGallery.ImgLoaded w h (ExifGallery.TagsRead noTags) clock in
  let listed := ExifGallery.mkEnv (ExifGallery.Listing [file]) imageAt in
  let unlisted := ExifGallery.mkEnv ExifGallery.ListingFailed imageAt in
  (exists img,
     ExifGallery.loadImageWithMetadata parseDate listed file = Done (Some img) /\
     dateObj img = DNull /\ isValidDate (dateObj img) = false /\
     title img = None) /\
  map dateObj (images (fst (ExifGallery.loadImages lc parseDate listed
                              (newGallery hostPage)))) = [DNull] /\
  snd (ExifGallery.init lc parseDate listed (newGallery hostPage))
  = Thrown TypeError /\
  Forall (fun img => dateObj img = DNull)
         (images (fst (ExifGallery.loadImagesFallback parseDate unlisted
                         (newGallery hostPage)))) /\
  List.length (images (fst (ExifGallery.loadImagesFallback parseDate unlisted
                              (newGallery hostPage)))) = 20%nat.
Proof.
  intros file imageAt listed unlisted.
  split; [eexists; split; [vm_compute; reflexivity|]; repeat split|].
  split; [vm_compute; reflexivity|]. split; [vm_compute; reflexivity|].
  split; [|vm_compute; reflexivity].
  vm_compute. repeat constructor.
Qed.

(** C3. The claim does not hold of the code, by a slip.  The date is taken
    from the first of DateTimeOriginal, DateTime, DateTimeDigitized that is
    set and not empty; but the first replacement turns every ":" into "-",
    those of the time too, so the second one, which looks for a "-" before
    [dd:dd:dd], never applies: "2024:01:15 10:30:45" becomes
    "2024-01-15 10-30-45", no string of the date-time format, and that is
    what [new Date] is given. *)
Theorem exifDate_loses_time_colons :
  exifDateToString "2024:01:15 10:30:45" = "2024-01-15 10-30-45" /\
  (forall dateTaken : string,
     exifDateToString dateTaken = mapChars colonToDash dateTaken /\
     hasChar ":" (exifDateToString dateTaken) = false) /\
  (forall (parseDate : string -> option Z) (tags : ExifGallery.AllTags),
     let date := ExifGallery.m_dateObj (ExifGallery.readTags parseDate tags) in
     let parsed := fun s => DDate (parseDate (exifDateToString s)) in
     match ExifGallery.DateTimeOriginal tags, ExifGallery.DateTime tags,
           ExifGallery.DateTimeDigitized tags with
     | Some a, b, c =>
         if (a =? "")%string
         then match b, c with
              | Some b', _ =>
                  if (b' =? "")%string
                  then match c with
                       | Some c' => if (c' =? "")%string then date = DNull
                                    else date = parsed c'
                       | None => date = DNull
                       end
                  else date = parsed b'
              | None, Some c' => if (c' =? "")%string then date = DNull
                                 else date = parsed c'
              | None, None => date = DNull
              end
         else date = parsed a
     | None, Some b', c =>
         if (b' =? "")%string
         then match c with
              | Some c' => if (c' =? "")%string then date = DNull
                           else date = parsed c'
              | None => date = DNull
              end
         else date = parsed b'
     | None, None, Some c' => if (c' =? "")%string then date = DNull
                              else date = parsed c'
     | None, None, None => date = DNull
     end) /\
  (forall parseDate : string -> option Z,
     ExifGallery.m_dateObj
       (ExifGallery.readTags parseDate (datedTags "2024:01:15 10:30:45"))
     = DDate (parseDate "2024-01-15 10-30-45")).
Proof.
  split; [reflexivity|]. split; [|split; [|reflexivity]].
  - intros dateTaken. unfold exifDateToString.
    rewrite dashBeforeTimeToSpace_no_colon by apply colonToDash_no_colon.
    split; [reflexivity|apply colonToDash_no_colon].
  - intros parseDate tags. unfold ExifGallery.readTags. simpl.
    destruct (ExifGallery.DateTimeOriginal tags) as [a|],
             (ExifGallery.DateTime tags) as [b|],
             (ExifGallery.DateTimeDigitized tags) as [c|];
      unfold or, truthy; simpl;
      repeat match goal with
             | |- context [(?s =? "")%string] =>
                 destruct (s =? "")%string eqn:?; simpl
             end;
      try reflexivity; congruence.
Qed.

(** C4. The strategies are entered in a fixed order.  In the first revision
    a descriptor that loads leaves the static descriptor as the only strategy
    entered; when it fails, the directory fallback is entered next, and no
    probing.  In the second revision the directory listing is entered first,
    and the probing of file names after it exactly when the listing failed. *)
Theorem fallback_chain (lc : string -> string -> Z)
        (parseDate : string -> option Z) (st : App) :
  (forall entries : list StaticGallery.RawImage,
     invoked (fst (StaticGallery.init lc parseDate
                     (StaticGallery.Descriptor entries) st))
     = (invoked st ++ [StaticDescriptor])%list) /\
  invoked (fst (StaticGallery.init lc parseDate StaticGallery.DescriptorFailed st))
  = (invoked st ++ [StaticDescriptor; DirectoryListing])%list /\
  (forall env : ExifGallery.Env,
     invoked (fst (ExifGallery.init lc parseDate env st))
     = match ExifGallery.listing env with
       | ExifGallery.Listing _ => (invoked st ++ [DirectoryListing])%list
       | ExifGallery.ListingFailed =>
           (invoked st ++ [DirectoryListing; FilenameProbing])%list
       end).
Proof.
  assert (Htail : forall (a : unit) (s : App),
             invoked (fst (bind renderGallery (fun _ => setupEventListeners) s))
             = invoked s).
  { intros _ s.
    rewrite (bind_fst (fun s1 s2 => invoked s2 = invoked s1)); auto.
    apply renderGallery_keeps. }
  split; [|split].
  - intros entries. unfold StaticGallery.init.
    rewrite (bind_fst (fun s1 s2 => invoked s2 = invoked s1)); auto.
    rewrite StaticGallery_loadMetadata_ok.
    now rewrite (proj1 (sortImages_keeps lc "date" _)).
  - unfold StaticGallery.init.
    rewrite (bind_fst (fun s1 s2 => invoked s2 = invoked s1)); auto.
    simpl. now rewrite <- app_assoc.
  - intros env. unfold ExifGallery.init.
    rewrite (bind_fst (fun s1 s2 => invoked s2 = invoked s1)); auto.
    unfold ExifGallery.loadImages.
    rewrite (bind_fst (fun s1 s2 => invoked s2 = invoked s1)); auto.
    + apply loadImagesFromGitHub_outcome.
    + intros _ s. apply sortImages_keeps.
Qed.

(** C5. A listing of N entries gives a collection of at most N records, and
    the probing is not entered.  When the load pass completes, an entry with
    an image extension whose image fails to load has no record in the
    collection, and every other such entry has one; the pass completes as
    soon as no extraction hangs, whichever images fail. *)
Theorem listing_load_bounded (parseDate : string -> option Z)
        (files : list File) (imageAt : string -> ExifGallery.ImageOutcome)
        (page : Dom) :
  let env := ExifGallery.mkEnv (ExifGallery.Listing files) imageAt in
  let st' := fst (ExifGallery.loadImagesFromGitHub parseDate env (newGallery page)) in
  let out := snd (ExifGallery.loadImagesFromGitHub parseDate env (newGallery page)) in
  (List.length (images st') <= List.length files)%nat /\
  invoked st' = [DirectoryListing] /\
  (out = Done tt \/ out = Pending) /\
  (out = Done tt ->
   images st'
   = ExifGallery.dropNull
       (map (fun f => match ExifGallery.loadImageWithMetadata parseDate env f with
                      | Done r => r
                      | _ => None
                      end) (filter isImageFile files)) /\
   (forall f, In f files -> isImageFile f = true ->
      imageAt (ExifGallery.imageSrc (name f)) = ExifGallery.ImgError ->
      ~ In (name f) (map filename (images st'))) /\
   (forall f, In f files -> isImageFile f = true ->
      imageAt (ExifGallery.imageSrc (name f)) <> ExifGallery.ImgError ->
      In (name f) (map filename (images st')))) /\
  ((forall f w h c, In f files ->
      imageAt (ExifGallery.imageSrc (name f))
      <> ExifGallery.ImgLoaded w h ExifGallery.ExtractHangs c) ->
   out = Done tt).
Proof.
  intros env st' out. subst st' out env.
  rewrite loadImagesFromGitHub_listing.
  set (env := ExifGallery.mkEnv (ExifGallery.Listing files) imageAt).
  destruct (ExifGallery.promiseAll _) as [loaded | e |] eqn:E.
  - apply promiseAll_done in E. simpl.
    assert (Hlen : List.length loaded = List.length (filter isImageFile files)).
    { apply (f_equal (@List.length _)) in E. now rewrite !length_map in E. }
    assert (Hload : forall f r, In f (filter isImageFile files) ->
              (ExifGallery.loadImageWithMetadata parseDate env f = Done r
               <-> In (f, r) (combine (filter isImageFile files) loaded))).
    { clear Hlen. revert loaded E.
      induction (filter isImageFile files) as [|g l IH]; intros loaded E f r Hin;
        [destruct Hin|].
      destruct loaded as [|r0 loaded]; [discriminate|].
      simpl in E. injection E as E0 E. simpl. split.
      - intros Hf. destruct Hin as [-> | Hin].
        + left. congruence.
        + right. now apply (IH loaded E f r Hin).
      - intros [Heq | Hc].
        + injection Heq as -> ->. exact E0.
        + assert (Hin' : In f l) by (eapply in_combine_l; eauto).
          now apply (IH loaded E f r Hin'). }
    assert (Hmap : loaded
              = map (fun f => match ExifGallery.loadImageWithMetadata parseDate env f with
                              | Done r => r
                              | _ => None
                              end) (filter isImageFile files)).
    { clear Hlen Hload. revert loaded E.
      induction (filter isImageFile files) as [|g l IH]; intros loaded E.
      - now destruct loaded.
      - destruct loaded as [|r0 loaded]; [discriminate|].
        simpl in E. injection E as E0 E. simpl. rewrite E0. f_equal.
        now apply IH. }
    split; [|split; [reflexivity|split; [now left|split]]].
    + pose proof (dropNull_length loaded).
      pose proof (filter_length_bound isImageFile files). lia.
    + intros _. split; [now rewrite <- Hmap|]. split.
      * intros f Hf Himg Herr Hin.
        apply in_map_iff in Hin as (img & Hname & Hin).
        apply dropNull_In in Hin. rewrite Hmap in Hin.
        apply in_map_iff in Hin as (g & Hg & Hgin).
        destruct (ExifGallery.loadImageWithMetadata parseDate env g)
          as [r | |] eqn:Eg; try discriminate. subst r.
        pose proof (loadImageWithMetadata_record parseDate env g img Eg) as Hn.
        assert (Hgerr : ExifGallery.imageAt env (ExifGallery.imageSrc (name g))
                        = ExifGallery.ImgError).
        { rewrite <- Hn, Hname. exact Herr. }
        apply (loadImageWithMetadata_error parseDate env g) in Hgerr. congruence.
      * intros f Hf Himg Hok.
        assert (Hfin : In f (filter isImageFile files))
          by (apply filter_In; auto).
        assert (Hd : In (ExifGallery.loadImageWithMetadata parseDate env f)
                        (map Done loaded)).
        { rewrite <- E. now apply in_map. }
        apply in_map_iff in Hd as (r & Hr & Hrin).
        destruct r as [img|].
        -- apply in_map_iff. exists img. split.
           ++ symmetry in Hr.
              now apply (loadImageWithMetadata_record parseDate env f img).
           ++ now apply dropNull_In.
        -- symmetry in Hr.
           apply (loadImageWithMetadata_error parseDate env f) in Hr.
           now destruct Hok.
    + intros _. reflexivity.
  - exfalso. revert E. apply promiseAll_not_thrown.
    intros o e' Hin. apply in_map_iff in Hin as (f & <- & _).
    apply loadImageWithMetadata_not_thrown.
  - simpl. split; [lia|]. split; [reflexivity|]. split; [now right|].
    split; [discriminate|].
    intros Hno. exfalso.
    apply promiseAll_pending in E. apply in_map_iff in E as (f & Hf & Hin).
    apply loadImageWithMetadata_pending in Hf as (w & h & c & Hf).
    apply filter_In in Hin as [Hin _]. now apply (Hno f w h c Hin).
Qed.




Lemma listing_load_bounded_witness :
  let files := [ mkFile "heron.jpg" None; mkFile "missing.png" None;
                 mkFile "notes.txt" None ] in
  let imageAt := fun s : string =>
    if (s =? "../images/heron.jpg")%string
    then ExifGallery.ImgLoaded 640 480 ExifGallery.NoTagReader 1717200000000
    else ExifGallery.ImgError in
  let env := ExifGallery.mkEnv (ExifGallery.Listing files) imageAt in
  (forall f w h c, In f files ->
     imageAt (ExifGallery.imageSrc (name f))
     <> ExifGallery.ImgLoaded w h ExifGallery.ExtractHangs c) /\
  snd (ExifGallery.loadImagesFromGitHub (fun _ => None) env (newGallery hostPage))
  = Done tt /\
  (List.length (images (fst (ExifGallery.loadImagesFromGitHub (fun _ => None) env
                               (newGallery hostPage)))) <= 3)%nat.
Proof.
  intros files imageAt env.
  assert (H : forall f w h c, In f files ->
            imageAt (ExifGallery.imageSrc (name f))
            <> ExifGallery.ImgLoaded w h ExifGallery.ExtractHangs c).
  { intros f w h c [<- | [<- | [<- | []]]]; vm_compute; discriminate. }
  destruct (listing_load_bounded (fun _ => None) files imageAt hostPage)
    as (Hlen & _ & _ & _ & Hdone).
  split; [exact H|]. split; [apply (Hdone H)|exact Hlen].
Defined.

(** * Further properties of the code *)

(** ** File names *)

Lemma allChars_app (p : ascii -> bool) (a b : string) :
  allChars p (a ++ b) = (allChars p a && allChars p b)%bool.
Proof.
  induction a as [|c a IH]; simpl; [reflexivity|].
  now rewrite IH, andb_assoc.
Qed.

Lemma isExtTail_dot (a b : string) : isExtTail (a ++ String "." b) = false.
Proof.
  unfold isExtTail. rewrite allChars_app. simpl.
  now rewrite !andb_false_r.
Qed.

Lemma isExtTail_no_dot (s : string) : isExtTail s = true -> hasChar "." s = false.
Proof.
  unfold isExtTail. intros H. apply andb_true_iff in H as [_ H].
  induction s as [|c s IH]; simpl in *; [reflexivity|].
  apply andb_true_iff in H as [Hc Hs]. rewrite (IH Hs), orb_false_r.
  apply negb_true_iff, orb_false_iff in Hc. apply Hc.
Qed.

Lemma stripExtension_no_dot (s : string) :
  hasChar "." s = false -> stripExtension s = s.
Proof.
  induction s as [|c s IH]; simpl; intros H; [reflexivity|].
  apply orb_false_iff in H as [Hc Hs]. rewrite Hc. simpl. now rewrite IH.
Qed.

(** X1. The extension that the title is generated without is the last one
    only: a name [stem.ext], where [ext] is non-empty and holds neither "."
    nor "/", loses [.ext] and nothing else, whatever dots [stem] holds; a
    name without a dot, and a name that ends in a dot, are kept whole. *)
Theorem stripExtension_last_only :
  (forall stem ext : string,
     isExtTail ext = true ->
     stripExtension (stem ++ String "." ext) = stem) /\
  (forall s : string, hasChar "." s = false -> stripExtension s = s) /\
  (forall stem : string, stripExtension (stem ++ ".") = (stem ++ ".")%string).
Proof.
  split; [|split].
  - intros stem ext H. induction stem as [|c stem IH]; simpl.
    + now rewrite H.
    + rewrite isExtTail_dot, andb_false_r. now rewrite IH.
  - apply stripExtension_no_dot.
  - intros stem. induction stem as [|c stem IH]; simpl; [reflexivity|].
    rewrite isExtTail_dot, andb_false_r. now rewrite IH.
Qed.

Lemma stripExtension_last_only_witness :
  isExtTail "jpg" = true /\
  stripExtension ("holiday.2024" ++ String "." "jpg") = "holiday.2024".
Proof.
  split; [reflexivity|].
  apply (proj1 stripExtension_last_only "holiday.2024" "jpg"). reflexivity.
Defined.

Lemma lastIndexOfFrom_app (c : ascii) (a r : string) (i acc : Z) :
  hasChar c r = false ->
  lastIndexOfFrom c (a ++ String c r) i acc = i + Z.of_nat (String.length a).
Proof.
  intros Hr. revert i acc. induction a as [|d a IH]; intros i acc.
  - simpl. rewrite Ascii.eqb_refl, lastIndexOfFrom_absent by exact Hr. lia.
  - cbn [append lastIndexOfFrom String.length]. rewrite IH. lia.
Qed.

Lemma mapChars_app (f : ascii -> ascii) (a b : string) :
  mapChars f (a ++ b) = (mapChars f a ++ mapChars f b)%string.
Proof. induction a as [|c a IH]; simpl; [reflexivity|]. now rewrite IH. Qed.

Lemma mapChars_length (f : ascii -> ascii) (s : string) :
  String.length (mapChars f s) = String.length s.
Proof. induction s as [|c s IH]; simpl; [reflexivity|]. now rewrite IH. Qed.

Lemma dropChars_app (a b : string) : dropChars (String.length a) (a ++ b) = b.
Proof. induction a as [|c a IH]; simpl; [now destruct b|exact IH]. Qed.

Lemma dropChars_mapChars (f : ascii -> ascii) (n : nat) (s : string) :
  dropChars n (mapChars f s) = mapChars f (dropChars n s).
Proof.
  revert s. induction n as [|n IH]; intros s; [now destruct s|].
  destruct s as [|c s]; simpl; [reflexivity|apply IH].
Qed.

Lemma substring_dropChars (n : nat) (s : string) :
  s = (substring 0 n s ++ dropChars n s)%string.
Proof.
  revert s. induction n as [|n IH]; intros s.
  - destruct s; reflexivity.
  - destruct s as [|c s]; simpl; [reflexivity|]. now rewrite <- IH.
Qed.

Lemma append_length (a b : string) :
  String.length (a ++ b) = (String.length a + String.length b)%nat.
Proof. induction a as [|c a IH]; simpl; [reflexivity|]. now rewrite IH. Qed.

Lemma lower_extension_shape (e : string) :
  includes (toLowerCase e) imageExtensions = true ->
  exists r, e = String "." r /\ hasChar "." r = false.
Proof.
  intros H.
  assert (Hd : exists r', toLowerCase e = String "." r' /\ hasChar "." r' = false).
  { unfold includes, imageExtensions in H. simpl in H.
    repeat (apply orb_true_iff in H as [H | H];
            [apply String.eqb_eq in H; rewrite H; eexists; split; reflexivity|]).
    discriminate. }
  destruct Hd as (r' & Hl & Hr'). destruct e as [|c r]; [discriminate|].
  unfold toLowerCase in Hl. simpl in Hl. injection Hl as Hc Hr.
  exists r. split.
  - f_equal. apply Ascii.eqb_eq. rewrite <- toLowerChar_dot, Hc. reflexivity.
  - rewrite <- hasChar_toLowerCase_dot. unfold toLowerCase. now rewrite Hr.
Qed.

(** X2. For a name of ASCII characters (where lower-casing keeps every
    index) the extension filter keeps exactly the entries whose name ends,
    in any letter case, in one of the five extensions: the name is some stem
    followed by a suffix whose lower-case form is in the allow list. *)
Theorem isImageFile_iff (file : File) :
  allChars isAsciiChar (name file) = true ->
  (isImageFile file = true <->
   exists stem e : string,
     name file = (stem ++ e)%string /\
     includes (toLowerCase e) imageExtensions = true).
Proof.
  intros _. unfold isImageFile, fileExt. split.
  - intros H. unfold substringFrom in H.
    set (n := Z.to_nat _) in H.
    exists (substring 0 n (name file)), (dropChars n (name file)). split.
    + apply substring_dropChars.
    + unfold toLowerCase in *. now rewrite <- dropChars_mapChars.
  - intros (stem & e & Hn & He).
    destruct (lower_extension_shape e He) as (r & -> & Hr).
    rewrite Hn. unfold lastIndexOf. rewrite lastIndexOfFrom_app by exact Hr.
    unfold substringFrom, toLowerCase in *.
    rewrite mapChars_length, append_length.
    replace (Z.to_nat _) with (String.length (mapChars toLowerChar stem)).
    + rewrite mapChars_app, dropChars_app. exact He.
    + rewrite mapChars_length. simpl. lia.
Qed.

Lemma isImageFile_iff_witness :
  allChars isAsciiChar (name (mkFile "Holiday.2024.JPG" None)) = true /\
  isImageFile (mkFile "Holiday.2024.JPG" None) = true.
Proof.
  assert (H : allChars isAsciiChar (name (mkFile "Holiday.2024.JPG" None)) = true)
    by reflexivity.
  split; [exact H|].
  apply (isImageFile_iff (mkFile "Holiday.2024.JPG" None) H).
  exists "Holiday.2024", ".JPG". split; reflexivity.
Defined.

(** ** Rendering *)

Lemma appendCards_closed (imgs : list ImageRecord) (g : list Node) :
  appendCards imgs g
  = ((g ++ map Card (beforeNull imgs))%list,
     if existsb isNullDate imgs then Thrown TypeError else Done tt).
Proof.
  revert g. induction imgs as [|img rest IH]; intros g; simpl.
  - now rewrite app_nil_r.
  - unfold isNullDate. destruct (dateObj img) as [|tv]; simpl.
    + now rewrite app_nil_r.
    + rewrite IH, <- app_assoc. reflexivity.
Qed.

Lemma beforeNull_all (imgs : list ImageRecord) :
  existsb isNullDate imgs = false -> beforeNull imgs = imgs.
Proof.
  induction imgs as [|img rest IH]; simpl; [reflexivity|].
  intros H. apply orb_false_iff in H as [-> H]. now rewrite IH.
Qed.

Lemma renderGallery_eval (st : App) :
  renderGallery st
  = (setDom
       (match images st with
        | [] => mkDom [] noArtworkText (loadingHidden (dom st))
                      (galleryLoaded (dom st))
        | _ => if existsb isNullDate (images st)
               then mkDom (map Card (beforeNull (images st)))
                          (loadingText (dom st)) (loadingHidden (dom st))
                          (galleryLoaded (dom st))
               else mkDom (map Card (images st)) (loadingText (dom st)) true true
        end) st,
     if existsb isNullDate (images st) then Thrown TypeError else Done tt).
Proof.
  unfold renderGallery. cbv zeta.
  change (images (setDom (setGallery [] (dom st)) st)) with (images st).
  destruct (images st) as [|img l] eqn:E; [reflexivity|].
  rewrite appendCards_closed.
  destruct (existsb isNullDate (img :: l)) eqn:Hn.
  - reflexivity.
  - rewrite (beforeNull_all _ Hn). reflexivity.
Qed.

(** X3. renderGallery in closed form.  Whatever the gallery element held, it
    holds afterwards: one card per record, in the order of the collection,
    with the loading element hidden and the gallery marked as loaded, when
    the collection is not empty and no [dateObj] is [null]; and, when some
    [dateObj] is [null], only the cards of the records in front of the first
    such record, the call ending in a TypeError with the loading element left
    as it was.  The collection and the sort key are not touched. *)
Theorem renderGallery_closed (st : App) :
  (images st <> [] -> existsb isNullDate (images st) = false ->
   renderGallery st
   = (setDom (mkDom (map Card (images st)) (loadingText (dom st)) true true) st,
      Done tt)) /\
  (existsb isNullDate (images st) = true ->
   renderGallery st
   = (setDom (mkDom (map Card (beforeNull (images st))) (loadingText (dom st))
                    (loadingHidden (dom st)) (galleryLoaded (dom st))) st,
      Thrown TypeError)) /\
  images (fst (renderGallery st)) = images st /\
  currentSort (fst (renderGallery st)) = currentSort st.
Proof.
  rewrite renderGallery_eval. split; [|split; [|split; reflexivity]].
  - intros Hne Hn. rewrite Hn. now destruct (images st).
  - intros Hn. rewrite Hn. destruct (images st); [discriminate|reflexivity].
Qed.

Lemma renderGallery_closed_witness :
  let st := sampleGallery
              [ sampleImage "a.jpg" (Some "Heron") (DDate (Some 1704067200000));
                sampleImage "b.png" None DNull;
                sampleImage "c.jpg" (Some "Finch") (DDate (Some 1717200000000)) ] in
  existsb isNullDate (images st) = true /\
  snd (renderGallery st) = Thrown TypeError /\
  gallery (dom (fst (renderGallery st)))
  = [Card (sampleImage "a.jpg" (Some "Heron") (DDate (Some 1704067200000)))].
Proof.
  intros st.
  assert (H : existsb isNullDate (images st) = true) by reflexivity.
  split; [exact H|].
  destruct (renderGallery_closed st) as (_ & Hnull & _).
  rewrite (Hnull H). split; reflexivity.
Defined.

(** X4. Rendering twice is rendering once: the second call finds the same
    collection, builds the same children and ends the same way. *)
Theorem renderGallery_idempotent (st : App) :
  renderGallery (fst (renderGallery st)) = renderGallery st.
Proof.
  rewrite (renderGallery_eval (fst (renderGallery st))).
  rewrite !renderGallery_eval. cbn [fst].
  unfold setDom. cbn [images dom currentSort invoked listening].
  destruct (images st) as [|img l]; [reflexivity|].
  destruct (existsb isNullDate (img :: l)); reflexivity.
Qed.

(** ** The first revision, end to end *)

Lemma sortImages_date_result (lc : string -> string -> Z) (st : App) :
  exists r,
    sortImages lc "date" st = (setImages r (setCurrentSort "date" st), Done tt) /\
    Permutation (images st) r /\
    (Forall (fun img => toNumber (dateObj img) <> NaN) (images st) ->
     newestFirst r = true).
Proof.
  rewrite sortImages_date. unfold sortInPlace.
  destruct (arraySort_chain dateCompare (fun _ => True) dateCompare_total
              (images (setCurrentSort "date" st))) as (r & Hs & C & Perm).
  { apply Forall_forall. auto. }
  exists r. rewrite Hs. split; [reflexivity|]. split; [exact Perm|].
  intros Hall. unfold newestFirst, dateValues.
  apply (chain_map (leq dateCompare)); [|exact C].
  pose proof (Forall_perm _ _ _ Perm Hall) as Hr. rewrite Forall_forall in Hr.
  intros x y Hx Hy. apply leq_dateCompare_numGeb; auto.
Qed.

Lemma existsb_perm (p : ImageRecord -> bool) (l r : list ImageRecord) :
  Permutation l r -> existsb p l = false -> existsb p r = false.
Proof.
  intros Hp Hl. destruct (existsb p r) eqn:E; [|reflexivity].
  apply existsb_exists in E as (x & Hx & Hpx).
  assert (existsb p l = true); [|congruence].
  apply existsb_exists. exists x. split; [|exact Hpx].
  eapply Permutation_in; [apply Permutation_sym|]; eauto.
Qed.

Lemma toRecord_dated (parseDate : string -> option Z)
      (entries : list StaticGallery.RawImage) :
  existsb isNullDate (map (StaticGallery.toRecord parseDate) entries) = false.
Proof.
  induction entries as [|e l IH]; simpl; [reflexivity|].
  rewrite IH. unfold isNullDate. simpl.
  now destruct (StaticGallery.raw_date e).
Qed.

Lemma bind_done {A B : Type} (m : M A) (k : A -> M B) (st st' : App) (a : A) :
  m st = (st', Done a) -> bind m k st = k a st'.
Proof. intros H. unfold bind. now rewrite H. Qed.

Lemma bind_thrown {A B : Type} (m : M A) (k : A -> M B) (st st' : App)
      (e : JsError) :
  m st = (st', Thrown e) -> bind m k st = (st', Thrown e).
Proof. intros H. unfold bind. now rewrite H. Qed.

Lemma renderGallery_dated (st : App) :
  existsb isNullDate (images st) = false ->
  renderGallery st
  = (setDom (match images st with
             | [] => mkDom [] noArtworkText (loadingHidden (dom st))
                           (galleryLoaded (dom st))
             | _ => mkDom (map Card (images st)) (loadingText (dom st)) true true
             end) st,
     Done tt) /\
  gallery (dom (fst (renderGallery st))) = map Card (images st).
Proof.
  intros H. rewrite renderGallery_eval, H. split; [reflexivity|].
  now destruct (images st).
Qed.

(** X5. In the first revision [init] always completes: whatever the
    descriptor request gives, nothing is thrown and the listeners are
    attached.  With a descriptor, the collection holds exactly one record per
    entry (none is dropped), the gallery shows one card per record in the
    order of the collection, and, when every entry has a date that parses,
    that order is newest first. *)
Theorem StaticGallery_init_completes (lc : string -> string -> Z)
        (parseDate : string -> option Z)
        (descriptor : StaticGallery.DescriptorOutcome) (page : Dom) :
  let st' := fst (StaticGallery.init lc parseDate descriptor (newGallery page)) in
  snd (StaticGallery.init lc parseDate descriptor (newGallery page)) = Done tt /\
  listening st' = true /\
  gallery (dom st') = map Card (images st') /\
  match descriptor with
  | StaticGallery.DescriptorFailed => images st' = []
  | StaticGallery.Descriptor entries =>
      Permutation (map (StaticGallery.toRecord parseDate) entries) (images st') /\
      List.length (images st') = List.length entries /\
      ((forall e, In e entries ->
          exists d t, StaticGallery.raw_date e = Some d /\ parseDate d = Some t) ->
       newestFirst (images st') = true)
  end.
Proof.
  destruct descriptor as [|entries]; cbv zeta.
  - repeat split.
  - destruct (sortImages_date_result lc
                (setImages (map (StaticGallery.toRecord parseDate) entries)
                           (enter StaticDescriptor (newGallery page))))
      as (r & Hsort & Perm & Hsorted).
    cbn [images setImages] in Perm, Hsorted.
    pose proof (existsb_perm isNullDate _ _ Perm (toRecord_dated parseDate entries))
      as Hn.
    set (st1 := setImages r (setCurrentSort "date"
                  (setImages (map (StaticGallery.toRecord parseDate) entries)
                             (enter StaticDescriptor (newGallery page))))) in *.
    destruct (renderGallery_dated st1 Hn) as [Hrender Hcards].
    assert (Hinit : StaticGallery.init lc parseDate
                      (StaticGallery.Descriptor entries) (newGallery page)
                    = setupEventListeners (fst (renderGallery st1))).
    { unfold StaticGallery.init.
      rewrite (bind_done _ _ _ st1 tt)
        by (rewrite StaticGallery_loadMetadata_ok; exact Hsort).
      rewrite (bind_done _ _ _ (fst (renderGallery st1)) tt)
        by (rewrite Hrender; reflexivity).
      reflexivity. }
    rewrite Hinit.
    assert (Himgs : images (fst (setupEventListeners (fst (renderGallery st1)))) = r).
    { rewrite Hrender. reflexivity. }
    rewrite Himgs.
    split; [reflexivity|]. split; [reflexivity|]. split.
    { exact Hcards. }
    split; [exact Perm|]. split.
    { apply Permutation_length in Perm. now rewrite length_map in Perm. }
    intros Hd. apply Hsorted.
    apply Forall_forall. intros x Hx.
    apply in_map_iff in Hx as (e & <- & He).
    destruct (Hd e He) as (d & t & Hdate & Hparse).
    simpl. rewrite Hdate. simpl. rewrite Hparse. discriminate.
Qed.

(** ** The second revision: what the records carry and how [init] ends *)

(** X6. A record of loadImageWithMetadata has [dateObj = null] exactly when
    the tag reader ran on the image and found no date tag that is set and
    non-empty; in every other case (no tag reader, a date tag, a throw of the
    extraction) [dateObj] is a [Date]. *)
Theorem loadImageWithMetadata_null_date (parseDate : string -> option Z)
        (env : ExifGallery.Env) (file : File) (img : ImageRecord) :
  ExifGallery.loadImageWithMetadata parseDate env file = Done (Some img) ->
  (dateObj img = DNull <->
   exists w h tags c,
     ExifGallery.imageAt env (ExifGallery.imageSrc (name file))
     = ExifGallery.ImgLoaded w h (ExifGallery.TagsRead tags) c /\
     noDateTag tags = true).
Proof.
  unfold ExifGallery.loadImageWithMetadata.
  destruct (ExifGallery.imageAt env _) as [|w h [| tags | |] c]; simpl;
    intros H; try discriminate; injection H as <-; simpl.
  - split.
    + unfold ExifGallery.defaultDate. destruct (sha file) as [s|];
        [destruct (truthy (Some s))|]; discriminate.
    + intros (? & ? & ? & ? & ? & _). discriminate.
  - unfold noDateTag.
    destruct (or (or _ _) _) as [s|] eqn:Ed.
    + destruct (truthy (Some s)) eqn:Et; split.
      * discriminate.
      * intros (w' & h' & tags' & c' & Heq & Hno).
        injection Heq as _ _ <- _. rewrite Ed, Et in Hno. discriminate.
      * intros _. exists w, h, tags, c. split; [reflexivity|].
        now rewrite Ed, Et.
      * reflexivity.
    + split; [|reflexivity].
      intros _. exists w, h, tags, c. split; [reflexivity|]. now rewrite Ed.
  - split; [discriminate|].
    intros (? & ? & ? & ? & ? & _). discriminate.
Qed.

Lemma loadImageWithMetadata_null_date_witness :
  let env := ExifGallery.mkEnv (ExifGallery.Listing [])
               (fun _ => ExifGallery.ImgLoaded 640 480
                           (ExifGallery.TagsRead noTags) 1717200000000) in
  let file := mkFile "sketch.jpg" None in
  exists img,
    ExifGallery.loadImageWithMetadata (fun _ => None) env file = Done (Some img) /\
    dateObj img = DNull.
Proof.
  intros env file. eexists. split; [vm_compute; reflexivity|].
  apply (loadImageWithMetadata_null_date (fun _ => None) env file _ eq_refl).
  exists 640%N, 480%N, noTags, 1717200000000. split; reflexivity.
Defined.

Lemma loadImages_listening (lc : string -> string -> Z)
      (parseDate : string -> option Z) (env : ExifGallery.Env) (st : App) :
  listening (fst (ExifGallery.loadImages lc parseDate env st)) = listening st.
Proof.
  unfold ExifGallery.loadImages.
  rewrite (bind_fst (fun s1 s2 => listening s2 = listening s1)); auto.
  - destruct env as [[|files] imageAt].
    + rewrite loadImagesFromGitHub_failed.
      cbv beta iota zeta delta [ExifGallery.loadImagesFallback bind modify await].
      destruct (ExifGallery.probe _ _ _ _) as [[|img l] | e |]; reflexivity.
    + rewrite loadImagesFromGitHub_listing.
      destruct (ExifGallery.promiseAll _) as [loaded | e |]; reflexivity.
  - intros _ s. apply sortImages_keeps.
Qed.

(** X7. How [init] of the second revision ends once the load pass has
    completed.  If no record of the collection has a [null] date, [init]
    completes, the listeners are attached and the gallery shows one card per
    record in order.  If some record has one, [init] ends in a TypeError
    thrown by the rendering: the gallery shows only the cards in front of
    that record and the listeners are never attached. *)
Theorem ExifGallery_init_outcome (lc : string -> string -> Z)
        (parseDate : string -> option Z) (env : ExifGallery.Env) (page : Dom) :
  snd (ExifGallery.loadImages lc parseDate env (newGallery page)) = Done tt ->
  let loaded := fst (ExifGallery.loadImages lc parseDate env (newGallery page)) in
  let final := fst (ExifGallery.init lc parseDate env (newGallery page)) in
  let out := snd (ExifGallery.init lc parseDate env (newGallery page)) in
  images final = images loaded /\
  if existsb isNullDate (images loaded)
  then out = Thrown TypeError /\ listening final = false /\
       gallery (dom final) = map Card (beforeNull (images loaded))
  else out = Done tt /\ listening final = true /\
       gallery (dom final) = map Card (images loaded).
Proof.
  intros Hdone loaded final out.
  pose proof (loadImages_listening lc parseDate env (newGallery page)) as Hl.
  fold loaded in Hl. cbn in Hl.
  assert (Hload : ExifGallery.loadImages lc parseDate env (newGallery page)
                  = (loaded, Done tt)).
  { subst loaded.
    destruct (ExifGallery.loadImages lc parseDate env (newGallery page)) as [s o].
    simpl in *. now subst o. }
  subst final out. unfold ExifGallery.init.
  rewrite (bind_done _ _ _ loaded tt Hload).
  pose proof (renderGallery_eval loaded) as Hr.
  destruct (existsb isNullDate (images loaded)) eqn:Hn.
  - rewrite (bind_thrown _ _ _ _ TypeError Hr). cbn.
    destruct (images loaded) as [|img l]; [discriminate|]. cbn. auto.
  - rewrite (bind_done _ _ _ _ tt Hr). cbn.
    destruct (images loaded) as [|img l]; cbn; auto.
Qed.

Lemma ExifGallery_init_outcome_witness :
  let env := ExifGallery.mkEnv
               (ExifGallery.Listing [mkFile "dated.jpg" None; mkFile "sketch.jpg" None])
               (fun s => if (s =? "../images/dated.jpg")%string
                         then ExifGallery.ImgLoaded 640 480
                                (ExifGallery.TagsRead (datedTags "2024:06:01 10:00:00"))
                                1717200000000
                         else ExifGallery.ImgLoaded 640 480
                                (ExifGallery.TagsRead noTags) 1717200000000) in
  snd (ExifGallery.loadImages codeUnitCompare (fun _ => Some 1717236000000) env
                              (newGallery hostPage)) = Done tt /\
  snd (ExifGallery.init codeUnitCompare (fun _ => Some 1717236000000) env
                        (newGallery hostPage)) = Thrown TypeError.
Proof.
  intros env.
  assert (H : snd (ExifGallery.loadImages codeUnitCompare
                     (fun _ => Some 1717236000000) env (newGallery hostPage))
              = Done tt) by (vm_compute; reflexivity).
  split; [exact H|].
  pose proof (ExifGallery_init_outcome codeUnitCompare
                (fun _ => Some 1717236000000) env hostPage H) as [_ Hout].
  cbv zeta in Hout.
  replace (existsb isNullDate _) with true in Hout by (vm_compute; reflexivity).
  apply Hout.
Defined.

(** ** Probing *)

Lemma probe_filenames (parseDate : string -> option Z) (env : ExifGallery.Env)
      (patterns : list string) (valid l : list ImageRecord) :
  ExifGallery.probe parseDate env patterns valid = Done l ->
  map filename l = (map filename valid ++ filter (loads env) patterns)%list.
Proof.
  revert valid. induction patterns as [|p ps IH]; intros valid H; simpl in H.
  - injection H as <-. simpl. now rewrite app_nil_r.
  - simpl. unfold loads at 1.
    destruct (ExifGallery.imageAt env (ExifGallery.imageSrc p))
      as [|w h x c]; [now apply IH|].
    destruct (ExifGallery.extractImageMetadata parseDate x) as [m | e |];
      try discriminate.
    apply IH in H. rewrite H, map_app, <- app_assoc. simpl.
    now destruct m.
Qed.

(** X8. When the probing completes, the collection holds one record per
    candidate name whose image loads, and no other, in the order of the
    candidate list; the instruction panel is put into the gallery exactly
    when no candidate loads, and otherwise the page is left as it was. *)
Theorem loadImagesFallback_keeps_loaded (parseDate : string -> option Z)
        (env : ExifGallery.Env) (st : App) :
  snd (ExifGallery.loadImagesFallback parseDate env st) = Done tt ->
  let st' := fst (ExifGallery.loadImagesFallback parseDate env st) in
  map filename (images st') = filter (loads env) ExifGallery.commonPatterns /\
  (List.length (images st') <= 20)%nat /\
  (images st' = [] -> dom st' = setGallery [Instructions] (dom st)) /\
  (images st' <> [] -> dom st' = dom st).
Proof.
  cbv beta iota zeta delta [ExifGallery.loadImagesFallback bind modify await].
  destruct (ExifGallery.probe parseDate env ExifGallery.commonPatterns [])
    as [l | e |] eqn:E; cbv beta iota; try discriminate.
  intros _. pose proof (probe_filenames _ _ _ _ _ E) as Hf. simpl map in Hf.
  rewrite app_nil_l in Hf.
  assert (Hlen : (List.length l <= 20)%nat).
  { rewrite <- (length_map filename), Hf.
    etransitivity; [apply filter_length_bound|]. reflexivity. }
  set (kept := filter (loads env) ExifGallery.commonPatterns) in *.
  clearbody kept. clear E.
  destruct l as [|img l]; cbn.
  - repeat split; auto. congruence.
  - repeat split; auto. discriminate.
Qed.

Lemma loadImagesFallback_keeps_loaded_witness :
  let env := ExifGallery.mkEnv ExifGallery.ListingFailed
               (fun s => if (s =? "../images/art2.jpg")%string
                         then ExifGallery.ImgLoaded 640 480 ExifGallery.NoTagReader
                                                    1717200000000
                         else ExifGallery.ImgError) in
  snd (ExifGallery.loadImagesFallback (fun _ => None) env (newGallery hostPage))
  = Done tt /\
  map filename (images (fst (ExifGallery.loadImagesFallback (fun _ => None) env
                               (newGallery hostPage))))
  = ["art2.jpg"].
Proof.
  intros env.
  assert (H : snd (ExifGallery.loadImagesFallback (fun _ => None) env
                     (newGallery hostPage)) = Done tt)
    by (vm_compute; reflexivity).
  split; [exact H|].
  destruct (loadImagesFallback_keeps_loaded (fun _ => None) env
              (newGallery hostPage) H) as [Hn _].
  rewrite Hn. vm_compute. reflexivity.
Defined.

(** ** Stability of the sort *)

Section Stability.
Context {A : Type}.
Variable cmp : A -> A -> Outcome jsnum.
Variable p : A -> bool.
Hypothesis same_class : forall x y v,
  p x = true -> p y = true -> sortCompare cmp x y = Done v -> v <= 0.

Lemma insert_filter (x : A) (l r : list A) :
  insert cmp x l = Done r ->
  filter p r = if p x then x :: filter p l else filter p l.
Proof.
  revert r. induction l as [|y l IH]; intros r H; simpl in H.
  - injection H as <-. reflexivity.
  - destruct (sortCompare cmp x y) as [v | |] eqn:Hc; try discriminate.
    destruct (v <=? 0) eqn:Hv.
    + injection H as <-. reflexivity.
    + destruct (insert cmp x l) as [r' | |]; try discriminate.
      injection H as <-. simpl. rewrite (IH r' eq_refl).
      destruct (p y) eqn:Hy, (p x) eqn:Hx; try reflexivity.
      apply Z.leb_gt in Hv. pose proof (same_class x y v Hx Hy Hc). lia.
Qed.

Lemma arraySort_filter (l r : list A) :
  arraySort cmp l = Done r -> filter p r = filter p l.
Proof.
  revert r. induction l as [|x l IH]; intros r H; simpl in H.
  - now injection H as <-.
  - destruct (arraySort cmp l) as [l' | |]; try discriminate.
    rewrite (insert_filter x l' r H), (IH l' eq_refl). reflexivity.
Qed.
End Stability.

(** X9. sortImages is stable: the records that share a time value stand,
    after sortImages('date'), in the order they had before, and so do, after
    sortImages('name'), the records that share a title.  (Stated where the
    comparator is a consistent comparison on the collection: no Invalid
    Date, titles that are strings.) *)
Theorem sortImages_stable (lc : string -> string -> Z) (st : App) :
  consistent lc ->
  (Forall (fun img => toNumber (dateObj img) <> NaN) (images st) ->
   forall t : Z,
     filter (hasTime t) (images (fst (sortImages lc "date" st)))
     = filter (hasTime t) (images st)) /\
  (Forall (fun img => title img <> None) (images st) ->
   forall s : string,
     filter (hasTitle s) (images (fst (sortImages lc "name" st)))
     = filter (hasTitle s) (images st)).
Proof.
  intros Hc. split; intros _.
  - intros t. rewrite sortImages_date. unfold sortInPlace. cbn [images setCurrentSort].
    destruct (arraySort dateCompare (images st)) as [r | e |] eqn:E;
      try reflexivity.
    cbn. apply (arraySort_filter dateCompare (hasTime t)); [|exact E].
    intros x y v Hx Hy. rewrite dateCompare_sortCompare. unfold hasTime in *.
    destruct (toNumber (dateObj x)), (toNumber (dateObj y)); try discriminate.
    simpl. intros [= <-]. apply Z.eqb_eq in Hx, Hy. lia.
  - intros s. rewrite sortImages_name. unfold sortInPlace. cbn [images setCurrentSort].
    destruct (arraySort (nameCompare lc) (images st)) as [r | e |] eqn:E;
      try reflexivity.
    cbn. apply (arraySort_filter (nameCompare lc) (hasTitle s)); [|exact E].
    intros x y v Hx Hy. unfold sortCompare, nameCompare, hasTitle in *.
    destruct (title x) as [tx|], (title y) as [ty|]; try discriminate.
    apply String.eqb_eq in Hx, Hy. subst tx ty. simpl. intros [= <-].
    destruct Hc as [Hrefl _]. rewrite Hrefl. lia.
Qed.

Lemma StaticGallery_init_completes_witness :
  let entries := [ StaticGallery.mkRaw "a.jpg" (Some "Heron") (Some "2024-01-01") None;
                   StaticGallery.mkRaw "b.jpg" (Some "Alder") (Some "2024-06-01") None ] in
  let parseDate := fun d : string =>
    if (d =? "2024-01-01")%string then Some 1704067200000
    else Some 1717200000000 in
  (forall e, In e entries ->
     exists d t, StaticGallery.raw_date e = Some d /\ parseDate d = Some t) /\
  newestFirst (images (fst (StaticGallery.init codeUnitCompare parseDate
                              (StaticGallery.Descriptor entries)
                              (newGallery hostPage)))) = true.
Proof.
  intros entries parseDate.
  assert (H : forall e, In e entries ->
            exists d t, StaticGallery.raw_date e = Some d /\ parseDate d = Some t).
  { intros e [<- | [<- | []]]; eexists; eexists; split; reflexivity. }
  split; [exact H|].
  destruct (StaticGallery_init_completes codeUnitCompare parseDate
              (StaticGallery.Descriptor entries) hostPage)
    as (_ & _ & _ & _ & _ & Hsorted).
  apply (Hsorted H).
Defined.

Lemma sortImages_stable_witness :
  let st := sampleGallery
              [ sampleImage "a.jpg" (Some "Heron") (DDate (Some 5));
                sampleImage "b.jpg" (Some "Alder") (DDate (Some 9));
                sampleImage "c.jpg" (Some "Finch") (DDate (Some 5)) ] in
  consistent codeUnitCompare /\
  Forall (fun img => toNumber (dateObj img) <> NaN) (images st) /\
  map filename (filter (hasTime 5)
                       (images (fst (sortImages codeUnitCompare "date" st))))
  = ["a.jpg"; "c.jpg"].
Proof.
  intros st.
  assert (Hd : Forall (fun img => toNumber (dateObj img) <> NaN) (images st))
    by (repeat constructor; discriminate).
  split; [exact codeUnitCompare_consistent|]. split; [exact Hd|].
  rewrite (proj1 (sortImages_stable codeUnitCompare st codeUnitCompare_consistent)
                 Hd 5).
  reflexivity.
Defined.

(** ** The sort buttons *)

Lemma sortImages_name_result (lc : string -> string -> Z) (st : App) :
  consistent lc ->
  Forall (fun img => title img <> None) (images st) ->
  exists r,
    sortImages lc "name" st = (setImages r (setCurrentSort "name" st), Done tt) /\
    Permutation (images st) r /\
    chain (titleLeb lc) (titles r) = true.
Proof.
  intros Hc Hall. rewrite sortImages_name. unfold sortInPlace.
  destruct (arraySort_chain (nameCompare lc) (fun img => title img <> None)
              (nameCompare_total lc Hc) (images (setCurrentSort "name" st)))
    as (r & Hs & C & Perm); [exact Hall|].
  exists r. rewrite Hs. split; [reflexivity|]. split; [exact Perm|].
  unfold titles. apply (chain_map (leq (nameCompare lc))); [|exact C].
  pose proof (Forall_perm _ _ _ Perm Hall) as Hr. rewrite Forall_forall in Hr.
  intros x y Hx Hy. apply leq_nameCompare_titleLeb; auto.
Qed.

(** X10. A click on a sort button, on a collection whose records all have a
    [Date] (none is [null]): the button clicked is the only active one, the
    key is recorded, the collection is rearranged (newest first for the date
    button when no date is invalid; by title for the name button when every
    title is a string) and the gallery shows exactly one card per record in
    the new order of the collection. *)
Theorem sortClick_shows_sorted (lc : string -> string -> Z)
        (active : list string) (st : App) :
  consistent lc ->
  existsb isNullDate (images st) = false ->
  (let r := sortClick lc "sortDate" "date" (active, st) in
   snd r = Done tt /\ fst (fst r) = ["sortDate"] /\
   currentSort (snd (fst r)) = "date" /\
   Permutation (images st) (images (snd (fst r))) /\
   gallery (dom (snd (fst r))) = map Card (images (snd (fst r))) /\
   (Forall (fun img => toNumber (dateObj img) <> NaN) (images st) ->
    newestFirst (images (snd (fst r))) = true)) /\
  (Forall (fun img => title img <> None) (images st) ->
   let r := sortClick lc "sortName" "name" (active, st) in
   snd r = Done tt /\ fst (fst r) = ["sortName"] /\
   currentSort (snd (fst r)) = "name" /\
   Permutation (images st) (images (snd (fst r))) /\
   gallery (dom (snd (fst r))) = map Card (images (snd (fst r))) /\
   chain (titleLeb lc) (titles (images (snd (fst r)))) = true).
Proof.
  intros Hc Hn. split.
  - destruct (sortImages_date_result lc st) as (r & Hs & Perm & Hsorted).
    pose proof (existsb_perm isNullDate _ _ Perm Hn) as Hn'.
    destruct (renderGallery_dated (setImages r (setCurrentSort "date" st)) Hn')
      as [Hrender Hcards].
    unfold sortClick. cbv zeta. cbn [snd fst].
    rewrite (bind_done _ _ _ _ tt Hs). rewrite Hrender in *. cbn in *.
    repeat split; auto.
  - intros Hall.
    destruct (sortImages_name_result lc st Hc Hall) as (r & Hs & Perm & Hsorted).
    pose proof (existsb_perm isNullDate _ _ Perm Hn) as Hn'.
    destruct (renderGallery_dated (setImages r (setCurrentSort "name" st)) Hn')
      as [Hrender Hcards].
    unfold sortClick. cbv zeta. cbn [snd fst].
    rewrite (bind_done _ _ _ _ tt Hs). rewrite Hrender in *. cbn in *.
    repeat split; auto.
Qed.

Lemma sortClick_shows_sorted_witness :
  let st := sampleGallery
              [ sampleImage "a.jpg" (Some "Heron") (DDate (Some 1704067200000));
                sampleImage "b.jpg" (Some "Alder") (DDate (Some 1717200000000)) ] in
  consistent codeUnitCompare /\
  existsb isNullDate (images st) = false /\
  Forall (fun img => title img <> None) (images st) /\
  snd (sortClick codeUnitCompare "sortName" "name" (["sortDate"], st)) = Done tt /\
  fst (fst (sortClick codeUnitCompare "sortName" "name" (["sortDate"], st)))
  = ["sortName"].
Proof.
  intros st.
  assert (Hn : existsb isNullDate (images st) = false) by reflexivity.
  assert (Ht : Forall (fun img => title img <> None) (images st))
    by (repeat constructor; discriminate).
  split; [exact codeUnitCompare_consistent|]. split; [exact Hn|].
  split; [exact Ht|].
  destruct (sortClick_shows_sorted codeUnitCompare ["sortDate"] st
              codeUnitCompare_consistent Hn) as [_ Hname].
  destruct (Hname Ht) as (H1 & H2 & _). split; assumption.
Defined.

(** X11. A click on the name button while every title is undefined, on two
    records or more (what the second revision loads for images without a
    description tag): the handler ends in a TypeError thrown by the
    comparator.  The name button is already the active one and the key is
    recorded as 'name', but the collection keeps its order and the gallery
    is not rendered again. *)
Theorem sortClick_untitled_throws (lc : string -> string -> Z)
        (active : list string) (st : App) :
  Forall (fun img => title img = None) (images st) ->
  (2 <= List.length (images st))%nat ->
  sortClick lc "sortName" "name" (active, st)
  = ((["sortName"], setCurrentSort "name" st), Thrown TypeError).
Proof.
  intros Hall Hlen. unfold sortClick. cbv zeta. cbn [snd].
  assert (Hs : sortImages lc "name" st
               = (setCurrentSort "name" st, Thrown TypeError)).
  { rewrite sortImages_name. unfold sortInPlace. cbn [images setCurrentSort].
    now rewrite (arraySort_untitled lc (images st) Hall Hlen). }
  rewrite (bind_thrown _ _ _ _ TypeError Hs). reflexivity.
Qed.

Lemma sortClick_untitled_throws_witness :
  let st := sampleGallery
              [ sampleImage "a.png" None DNull; sampleImage "b.png" None DNull ] in
  Forall (fun img => title img = None) (images st) /\
  (2 <= List.length (images st))%nat /\
  snd (sortClick codeUnitCompare "sortName" "name" (["sortDate"], st))
  = Thrown TypeError.
Proof.
  intros st.
  assert (Ht : Forall (fun img => title img = None) (images st))
    by (repeat constructor).
  assert (Hl : (2 <= List.length (images st))%nat) by (simpl; lia).
  split; [exact Ht|]. split; [exact Hl|].
  now rewrite (sortClick_untitled_throws codeUnitCompare ["sortDate"] st Ht Hl).
Defined.

(** ** The modal viewer *)

Lemma pushIf_nil (v : option string) (label : string) :
  pushIf v label = [] <-> truthy v = false.
Proof.
  unfold pushIf. destruct v as [s|]; [|tauto].
  destruct (truthy (Some s)); split; intros H; try reflexivity; discriminate.
Qed.

Lemma pushIf_length (v : option string) (label : string) :
  (List.length (pushIf v label) <= 1)%nat.
Proof.
  unfold pushIf. destruct v as [s|]; [destruct (truthy (Some s))|]; simpl; lia.
Qed.

(** X12. openModal and closeModal.  For a record with a [Date], openModal
    completes, shows the modal with the source and title of the record and a
    caption of its date, dimensions and extra lines, and locks the scrolling
    of the page.  For a record whose [dateObj] is [null] it throws a
    TypeError after the modal is shown with the new source and title: the
    caption is still the one of the image shown before and the scrolling is
    not locked.  In both cases closeModal hides the modal and sets the
    overflow of the page to 'auto'.  The extra lines are empty exactly when
    description, software and camera are all unset or empty. *)
Theorem modal_open_close (img : ImageRecord) (v : Viewer) :
  (isNullDate img = false ->
   openModal img v
   = (mkViewer true (src img) (title img)
               (Some (mkCaption (dateObj img) (dimensions img) (extraInfo img)))
               "hidden",
      Done tt)) /\
  (isNullDate img = true ->
   openModal img v
   = (mkViewer true (src img) (title img) (modalDate v) (bodyOverflow v),
      Thrown TypeError)) /\
  modalShown (closeModal (fst (openModal img v))) = false /\
  bodyOverflow (closeModal (fst (openModal img v))) = "auto" /\
  modalImgSrc (closeModal (fst (openModal img v))) = src img /\
  (extraInfo img = [] <->
   truthy (description img) = false /\ truthy (software img) = false /\
   truthy (camera img) = false) /\
  (List.length (extraInfo img) <= 3)%nat.
Proof.
  unfold openModal, isNullDate.
  split; [|split; [|split; [|split; [|split; [|split]]]]];
    try (destruct (dateObj img); simpl; intros; try reflexivity; discriminate).
  - unfold extraInfo. split.
    + intros H. apply app_eq_nil in H as [H1 H]. apply app_eq_nil in H as [H2 H3].
      now rewrite pushIf_nil in H1, H2, H3.
    + intros (H1 & H2 & H3).
      rewrite <- (pushIf_nil _ "") in H1.
      rewrite <- (pushIf_nil _ "Created with: ") in H2.
      rewrite <- (pushIf_nil _ "Camera: ") in H3.
      now rewrite H1, H2, H3.
  - unfold extraInfo. rewrite !length_app.
    pose proof (pushIf_length (description img) "").
    pose proof (pushIf_length (software img) "Created with: ").
    pose proof (pushIf_length (camera img) "Camera: "). lia.
Qed.

Lemma modal_open_close_witness :
  let img := sampleImage "sketch.png" None DNull in
  let v := mkViewer false "" None None "" in
  isNullDate img = true /\
  openModal img v
  = (mkViewer true "../images/sketch.png" None None "", Thrown TypeError).
Proof.
  intros img v.
  assert (H : isNullDate img = true) by reflexivity.
  split; [exact H|].
  destruct (modal_open_close img v) as (_ & Hnull & _).
  apply (Hnull H).
Defined.

(** ** The tags *)

(** X13. The title of a record of loadImageWithMetadata is undefined exactly
    when the tag reader ran on the image and found neither ImageDescription
    nor XPTitle set and non-empty, and no XPSubject: the title generated from
    the file name is then not used.  It is used when there is no tag reader
    or the extraction throws. *)
Theorem loadImageWithMetadata_title (parseDate : string -> option Z)
        (env : ExifGallery.Env) (file : File) (img : ImageRecord) :
  ExifGallery.loadImageWithMetadata parseDate env file = Done (Some img) ->
  (title img = None <->
   exists w h tags c,
     ExifGallery.imageAt env (ExifGallery.imageSrc (name file))
     = ExifGallery.ImgLoaded w h (ExifGallery.TagsRead tags) c /\
     truthy (ExifGallery.ImageDescription tags) = false /\
     truthy (ExifGallery.XPTitle tags) = false /\
     ExifGallery.XPSubject tags = None) /\
  ((forall w h tags c,
      ExifGallery.imageAt env (ExifGallery.imageSrc (name file))
      <> ExifGallery.ImgLoaded w h (ExifGallery.TagsRead tags) c) ->
   title img = Some (generateTitle (stripExtension (name file)))).
Proof.
  unfold ExifGallery.loadImageWithMetadata.
  destruct (ExifGallery.imageAt env _) as [|w h [| tags | |] c]; simpl;
    intros H; try discriminate; injection H as <-; simpl.
  - split; [split; [discriminate|]|reflexivity].
    intros (? & ? & ? & ? & ? & _). discriminate.
  - split.
    + unfold or.
      destruct (truthy (ExifGallery.ImageDescription tags)) eqn:E1.
      * destruct (ExifGallery.ImageDescription tags) as [s|] eqn:Ed;
          [|discriminate].
        rewrite E1. split; [discriminate|].
        intros (w' & h' & tags' & c' & Heq & Ht & _).
        injection Heq as _ _ <- _. rewrite Ed, E1 in Ht. discriminate.
      * destruct (truthy (ExifGallery.XPTitle tags)) eqn:E2.
        -- destruct (ExifGallery.XPTitle tags) as [s|] eqn:Ed; [|discriminate].
           cbv beta iota. split; [discriminate|].
           intros (w' & h' & tags' & c' & Heq & _ & Ht & _).
           injection Heq as _ _ <- _. rewrite Ed, E2 in Ht. discriminate.
        -- split.
           ++ intros Hs. exists w, h, tags, c. repeat split; auto.
           ++ intros (w' & h' & tags' & c' & Heq & _ & _ & Hs).
              injection Heq as _ _ <- _. exact Hs.
    + intros Hno. now destruct (Hno w h tags c).
  - split; [split; [discriminate|]|reflexivity].
    intros (? & ? & ? & ? & ? & _). discriminate.
Qed.

Lemma loadImageWithMetadata_title_witness :
  let env := ExifGallery.mkEnv (ExifGallery.Listing [])
               (fun _ => ExifGallery.ImgLoaded 640 480 ExifGallery.NoTagReader
                                               1717200000000) in
  let file := mkFile "my_art-02.png" None in
  exists img,
    ExifGallery.loadImageWithMetadata (fun _ => None) env file = Done (Some img) /\
    title img = Some "My Art #02".
Proof.
  intros env file. eexists. split; [vm_compute; reflexivity|].
  refine (proj2 (loadImageWithMetadata_title (fun _ => None) env file _ eq_refl) _).
  intros w h tags c. discriminate.
Defined.

Lemma or_truthy (a b : option string) : truthy a = true -> or a b = a.
Proof. unfold or. now intros ->. Qed.

Lemma or_falsy (a b : option string) : truthy a = false -> or a b = b.
Proof. unfold or. now intros ->. Qed.

(** X14. What the tag callback derives.  A camera is reported exactly when
    Make and Model are both set and non-empty, and is then "Make Model".
    When ImageDescription is set and non-empty it is the title, and it is
    the description too unless XPComment or UserComment is.  The title and
    the software are empty or undefined exactly when each of their tags is. *)
Theorem readTags_fields (parseDate : string -> option Z)
        (tags : ExifGallery.AllTags) :
  let m := ExifGallery.readTags parseDate tags in
  (ExifGallery.m_camera m <> None <->
   truthy (ExifGallery.Make tags) = true /\
   truthy (ExifGallery.Model tags) = true) /\
  (forall mk md, ExifGallery.Make tags = Some mk ->
                 ExifGallery.Model tags = Some md ->
                 mk <> "" -> md <> "" ->
                 ExifGallery.m_camera m = Some (mk ++ " " ++ md)%string) /\
  (truthy (ExifGallery.ImageDescription tags) = true ->
   ExifGallery.m_title m = ExifGallery.ImageDescription tags /\
   (truthy (ExifGallery.XPComment tags) = false ->
    truthy (ExifGallery.UserComment tags) = false ->
    ExifGallery.m_description m = ExifGallery.m_title m)) /\
  (truthy (ExifGallery.m_title m) = false <->
   truthy (ExifGallery.ImageDescription tags) = false /\
   truthy (ExifGallery.XPTitle tags) = false /\
   truthy (ExifGallery.XPSubject tags) = false) /\
  (truthy (ExifGallery.m_software m) = false <->
   truthy (ExifGallery.Software tags) = false /\
   truthy (ExifGallery.ProcessingSoftware tags) = false).
Proof.
  cbv zeta. unfold ExifGallery.readTags. cbn [ExifGallery.m_camera
    ExifGallery.m_title ExifGallery.m_description ExifGallery.m_software].
  split; [|split; [|split; [|split]]].
  - destruct (ExifGallery.Make tags) as [mk|], (ExifGallery.Model tags) as [md|];
      try (split; [congruence|intros [? ?]; discriminate]).
    destruct (truthy (Some mk)), (truthy (Some md)); simpl;
      split; try congruence; try (intros [? ?]; discriminate); auto.
  - intros mk md -> -> Hmk Hmd. unfold truthy.
    apply String.eqb_neq in Hmk, Hmd. now rewrite Hmk, Hmd.
  - intros H.
    rewrite (or_truthy (ExifGallery.ImageDescription tags) _ H).
    rewrite (or_truthy (ExifGallery.ImageDescription tags) _ H).
    split; [reflexivity|]. intros H1 H2.
    rewrite (or_falsy (ExifGallery.XPComment tags) _ H1).
    now rewrite (or_falsy (ExifGallery.UserComment tags) _ H2).
  - destruct (truthy (ExifGallery.ImageDescription tags)) eqn:E1.
    { rewrite !(or_truthy (ExifGallery.ImageDescription tags) _ E1), E1.
      split; [discriminate|intros (? & _); discriminate]. }
    rewrite (or_falsy (ExifGallery.ImageDescription tags) _ E1).
    destruct (truthy (ExifGallery.XPTitle tags)) eqn:E2.
    { rewrite !(or_truthy (ExifGallery.XPTitle tags) _ E2), E2.
      split; [discriminate|intros (_ & ? & _); discriminate]. }
    rewrite (or_falsy (ExifGallery.XPTitle tags) _ E2).
    split; auto. now intros (_ & _ & ?).
  - destruct (truthy (ExifGallery.Software tags)) eqn:E1.
    { rewrite !(or_truthy (ExifGallery.Software tags) _ E1), E1.
      split; [discriminate|intros (? & _); discriminate]. }
    rewrite (or_falsy (ExifGallery.Software tags) _ E1).
    split; auto. now intros (_ & ?).
Qed.

(** ** Titles of names without digits *)

Lemma dashToSpace_digit (c : ascii) : isDigit (dashToSpace c) = isDigit c.
Proof. each_char c. Qed.

Lemma dashToSpace_stable (c : ascii) :
  dashToSpace (dashToSpace c) = dashToSpace c /\
  dashToSpace (toUpperChar (dashToSpace c)) = toUpperChar (dashToSpace c).
Proof. each_char c. Qed.

Lemma toUpperChar_idempotent (c : ascii) :
  toUpperChar (toUpperChar c) = toUpperChar c.
Proof. each_char c. Qed.

Lemma hashFrom_no_digit (s : string) (b : bool) :
  allChars (fun c => negb (isDigit c)) s = true -> hashFrom b s = s.
Proof.
  revert b. induction s as [|c s IH]; intros b H; simpl in *; [reflexivity|].
  apply andb_true_iff in H as [Hc Hs]. apply negb_true_iff in Hc.
  rewrite Hc. simpl. now rewrite IH.
Qed.

Lemma capitalizeFrom_no_digit (s : string) (b : bool) :
  allChars (fun c => negb (isDigit c)) (capitalizeFrom b s)
  = allChars (fun c => negb (isDigit c)) s.
Proof.
  revert b. induction s as [|c s IH]; intros b; simpl; [reflexivity|].
  rewrite IH. destruct (isWordChar c && negb b)%bool;
    now rewrite ?toUpperChar_digit.
Qed.

Lemma mapChars_dashToSpace_no_digit (s : string) :
  allChars (fun c => negb (isDigit c)) (mapChars dashToSpace s)
  = allChars (fun c => negb (isDigit c)) s.
Proof.
  induction s as [|c s IH]; simpl; [reflexivity|].
  now rewrite IH, dashToSpace_digit.
Qed.

Lemma capitalizeFrom_length (s : string) (b : bool) :
  String.length (capitalizeFrom b s) = String.length s.
Proof.
  revert b. induction s as [|c s IH]; intros b; simpl; [reflexivity|].
  now rewrite IH.
Qed.

Lemma capitalizeFrom_idempotent (s : string) (b : bool) :
  capitalizeFrom b (capitalizeFrom b s) = capitalizeFrom b s.
Proof.
  revert b. induction s as [|c s IH]; intros b; simpl; [reflexivity|].
  destruct (isWordChar c && negb b)%bool eqn:E.
  - rewrite toUpperChar_word, E, toUpperChar_idempotent. f_equal. apply IH.
  - rewrite E. f_equal. apply IH.
Qed.

Lemma dashToSpace_capitalizeFrom (s : string) (b : bool) :
  mapChars dashToSpace (capitalizeFrom b (mapChars dashToSpace s))
  = capitalizeFrom b (mapChars dashToSpace s).
Proof.
  revert b. induction s as [|c s IH]; intros b; simpl; [reflexivity|].
  rewrite IH. f_equal.
  destruct (isWordChar (dashToSpace c) && negb b)%bool;
    apply dashToSpace_stable.
Qed.

(** X15. For a file name without digits the title has the length of the
    name, and generating a title from it gives it back: generateTitle is
    idempotent there.  (With a digit it is not: every application puts one
    more "#" before each run, as "a1" shows.) *)
Theorem generateTitle_without_digits (filename : string) :
  allChars (fun c => negb (isDigit c)) filename = true ->
  String.length (generateTitle filename) = String.length filename /\
  generateTitle (generateTitle filename) = generateTitle filename /\
  generateTitle (generateTitle "a1") <> generateTitle "a1".
Proof.
  intros H. unfold generateTitle at 1 2 3 4.
  assert (Hd : allChars (fun c => negb (isDigit c))
                 (capitalizeFrom false (mapChars dashToSpace filename)) = true)
    by now rewrite capitalizeFrom_no_digit, mapChars_dashToSpace_no_digit.
  rewrite (hashFrom_no_digit _ false Hd).
  split; [now rewrite capitalizeFrom_length, mapChars_length|].
  split; [|vm_compute; discriminate].
  unfold generateTitle.
  rewrite dashToSpace_capitalizeFrom, capitalizeFrom_idempotent.
  apply (hashFrom_no_digit _ false Hd).
Qed.

Lemma generateTitle_without_digits_witness :
  allChars (fun c => negb (isDigit c)) "blue_heron-study" = true /\
  generateTitle (generateTitle "blue_heron-study") = "Blue Heron Study".
Proof.
  split; [reflexivity|].
  rewrite (proj1 (proj2 (generateTitle_without_digits "blue_heron-study" eq_refl))).
  reflexivity.
Defined.
